(** * AudioBlend: the auto-mixing DSP chain

    A shallow embedding of the C++ sources

      - [core/audio_buffer.h]        (planar sample buffer)
      - [dsp/spectrum_analyzer.cpp]  (bin/frequency conversion)
      - [effects/compressor.cpp]     (soft-knee compressor)
      - [effects/equalizer.cpp]      (biquad cascade)
      - [dsp/auto_mixer.cpp]         (analysis and render)

    The code computes on 32-bit [float]s.  The embedding is written once,
    over an interface [FloatOps] that names every arithmetic primitive the
    sources use, so that the structural results (buffer shapes, state
    threading, which stages run) hold for any arithmetic, IEEE rounding
    included.  Statements about the values of formulas are made for the
    instance [R_ops], where every primitive is the exact real function. *)

From Stdlib Require Import Reals Lra Lia ZArith QArith Qreals.
From stdpp Require Import base list.

(** ** The arithmetic the sources use *)

Class FloatOps (F : Type) : Type := {
  flit    : Q -> F;          (* a literal such as [0.8f], given by its decimal value *)
  of_size : Z -> F;          (* conversion [size_t -> float] *)
  to_size : F -> Z;          (* [static_cast<size_t>(x)] *)
  fadd    : F -> F -> F;
  fsub    : F -> F -> F;
  fmul    : F -> F -> F;
  fdiv    : F -> F -> F;
  fneg    : F -> F;
  fltb    : F -> F -> bool;  (* [a < b] *)
  fabs    : F -> F;          (* [std::abs]   *)
  fexp    : F -> F;          (* [std::exp]   *)
  flog10  : F -> F;          (* [std::log10] *)
  fsin    : F -> F;          (* [std::sin]   *)
  fcos    : F -> F;          (* [std::cos]   *)
  fpow    : F -> F -> F;     (* [std::pow]   *)
  fpi     : F                (* [M_PI]       *)
}.

Arguments flit {F _} _%_Q.
Arguments of_size {F _} _%_Z.

Declare Scope fl_scope.
Delimit Scope fl_scope with fl.
Infix "+" := fadd : fl_scope.
Infix "-" := fsub : fl_scope.
Infix "*" := fmul : fl_scope.
Infix "/" := fdiv : fl_scope.
Notation "- x" := (fneg x) : fl_scope.

(** [std::max(a, b)] is [(a < b) ? b : a]. *)
Definition fmax `{FloatOps F} (a b : F) : F := if fltb a b then b else a.

(** [a > b] is [b < a]. *)
Definition fgtb `{FloatOps F} (a b : F) : bool := fltb b a.

(** Unsigned subtraction on [size_t] (64 bits) wraps around. *)
Definition size_sub (a b : nat) : Z := ((Z.of_nat a - Z.of_nat b) mod 2 ^ 64)%Z.

(** The read-modify-write of a prefix [dst[i] = f(dst[i], src[i])], [i < n]:
    the shape of both loops of [AudioBuffer::addFrom].  Indices beyond either
    list are left alone. *)
Fixpoint update_prefix {A B : Type} (f : A -> B -> A) (n : nat)
    (dst : list A) (src : list B) : list A :=
  match n, dst, src with
  | S n', d :: dst', s :: src' => f d s :: update_prefix f n' dst' src'
  | _, _, _ => dst
  end.

(** ** core/audio_buffer.h *)

Section AudioBuffer.
Context `{FloatOps F}.

(** [data_] holds [channels_] planes of [samples_] samples each; the only
    constructor establishes this and no member function changes a size. *)
Record AudioBuffer : Type := mkAudioBuffer {
  channels_ : nat;
  samples_  : nat;
  data_     : list (list F)
}.

Definition AudioBuffer_new (channels samples : nat) : AudioBuffer :=
  {| channels_ := channels;
     samples_  := samples;
     data_     := replicate channels (replicate samples (flit 0)) |}.

Definition getNumChannels (b : AudioBuffer) : nat := channels_ b.
Definition getNumSamples (b : AudioBuffer) : nat := samples_ b.

(** The class invariant. *)
Definition wf_buffer (b : AudioBuffer) : Prop :=
  length (data_ b) = channels_ b /\
  Forall (fun plane => length plane = samples_ b) (data_ b).

(** [applyGain]: the 8-lane loop and the scalar tail both store
    [channel[i] * gain] at every index. *)
Definition applyGain (b : AudioBuffer) (gain : F) : AudioBuffer :=
  {| channels_ := channels_ b;
     samples_  := samples_ b;
     data_     := map (map (fun x => (x * gain)%fl)) (data_ b) |}.

Definition clear (b : AudioBuffer) : AudioBuffer :=
  {| channels_ := channels_ b;
     samples_  := samples_ b;
     data_     := map (map (fun _ => flit 0)) (data_ b) |}.

(** [addFrom]: [dst[i] += src[i] * gain] for the first
    [min(channels_, other.channels_)] planes and the first
    [min(samples_, other.samples_)] samples of each. *)
Definition addFrom (self other : AudioBuffer) (gain : F) : AudioBuffer :=
  let numChannels := Nat.min (channels_ self) (channels_ other) in
  let numSamples := Nat.min (samples_ self) (samples_ other) in
  {| channels_ := channels_ self;
     samples_  := samples_ self;
     data_     :=
       update_prefix
         (fun dst src =>
            update_prefix (fun d s => (d + s * gain)%fl) numSamples dst src)
         numChannels (data_ self) (data_ other) |}.

(** The sample at plane [ch], index [n], when there is one. *)
Definition sample (b : AudioBuffer) (ch n : nat) : option F :=
  match data_ b !! ch with
  | Some plane => plane !! n
  | None => None
  end.
End AudioBuffer.

Arguments AudioBuffer F : clear implicits.

(** ** dsp/spectrum_analyzer.cpp *)

Section SpectrumAnalyzer.
Context `{FloatOps F}.

Record SpectrumAnalyzer : Type := mkSpectrumAnalyzer {
  fftSize_ : nat;
  window_  : list F
}.

(** Hann window: [0.5f * (1.0f - cos(2.0f * M_PI * i / (fftSize_ - 1)))]. *)
Definition generateWindow (fftSize : nat) : list F :=
  map (fun i : nat =>
         (flit (5 # 10) *
          (flit 1 - fcos (flit 2 * fpi * of_size (Z.of_nat i)
                          / of_size (size_sub fftSize 1))))%fl)
      (seq 0 fftSize).

Definition SpectrumAnalyzer_new (fftSize : nat) : SpectrumAnalyzer :=
  {| fftSize_ := fftSize; window_ := generateWindow fftSize |}.

(** The placeholder spectrum: [fftSize_ / 2 + 1] magnitudes of [0.1f]. *)
Definition analyze (a : SpectrumAnalyzer) (data : list F) : list F :=
  replicate (fftSize_ a / 2 + 1) (flit (1 # 10)).

Definition getFrequencyBin (a : SpectrumAnalyzer) (frequency sampleRate : F) : Z :=
  to_size (frequency * of_size (Z.of_nat (fftSize_ a)) / sampleRate)%fl.

Definition getBinFrequency (a : SpectrumAnalyzer) (bin : nat) (sampleRate : F) : F :=
  (of_size (Z.of_nat bin) * sampleRate / of_size (Z.of_nat (fftSize_ a)))%fl.
End SpectrumAnalyzer.

Arguments SpectrumAnalyzer F : clear implicits.

(** ** effects/compressor.cpp *)

Section Compressor.
Context `{FloatOps F}.

Record CompressorSettings : Type := mkCompressorSettings {
  threshold  : F;
  ratio      : F;
  attack     : F;
  release    : F;
  knee       : F;
  makeupGain : F
}.

Definition CompressorSettings_default : CompressorSettings :=
  {| threshold := flit (-12); ratio := flit 4; attack := flit 10;
     release := flit 100; knee := flit 2; makeupGain := flit 0 |}.

Record Compressor : Type := mkCompressor {
  csettings_            : CompressorSettings;
  envelope_             : F;
  currentGainReduction_ : F;
  attackCoeff_          : F;
  releaseCoeff_         : F
}.

(** [updateCoefficients(sampleRate = 48000.0f)]. *)
Definition Compressor_updateCoefficients (c : Compressor) (sampleRate : F) : Compressor :=
  let attackSamples := (attack (csettings_ c) * sampleRate / flit 1000)%fl in
  let releaseSamples := (release (csettings_ c) * sampleRate / flit 1000)%fl in
  {| csettings_ := csettings_ c;
     envelope_ := envelope_ c;
     currentGainReduction_ := currentGainReduction_ c;
     attackCoeff_ := fexp (flit (-1) / attackSamples)%fl;
     releaseCoeff_ := fexp (flit (-1) / releaseSamples)%fl |}.

(** The constructor zeroes the envelope and the meter; the two coefficients
    are first written by [updateCoefficients]. *)
Definition Compressor_new (settings : CompressorSettings) : Compressor :=
  Compressor_updateCoefficients
    {| csettings_ := settings; envelope_ := flit 0;
       currentGainReduction_ := flit 0;
       attackCoeff_ := flit 0; releaseCoeff_ := flit 0 |}
    (flit 48000).

Definition setSettings (c : Compressor) (settings : CompressorSettings) : Compressor :=
  Compressor_updateCoefficients
    {| csettings_ := settings; envelope_ := envelope_ c;
       currentGainReduction_ := currentGainReduction_ c;
       attackCoeff_ := attackCoeff_ c; releaseCoeff_ := releaseCoeff_ c |}
    (flit 48000).

Definition computeGain (c : Compressor) (inputLevel : F) : F :=
  let s := csettings_ c in
  let inputDb := (flit 20 * flog10 (fmax inputLevel (flit (1 # 10000000000))))%fl in
  let kneeStart := (threshold s - knee s / flit 2)%fl in
  let kneeEnd := (threshold s + knee s / flit 2)%fl in
  let gainReduction :=
    if fgtb inputDb kneeEnd then
      let excess := (inputDb - threshold s)%fl in
      (excess * (flit 1 - flit 1 / ratio s))%fl
    else if fgtb inputDb kneeStart then
      let kneeProgress := ((inputDb - kneeStart) / knee s)%fl in
      let excess := (inputDb - threshold s)%fl in
      (excess * (flit 1 - flit 1 / ratio s) * kneeProgress * kneeProgress)%fl
    else flit 0 in
  fpow (flit 10) ((- gainReduction + makeupGain s) / flit 20)%fl.

(** One iteration of the loop of [Compressor::process]. *)
Definition Compressor_step (c : Compressor) (x : F) : Compressor * F :=
  let inputLevel := fabs x in
  let envelope :=
    if fgtb inputLevel (envelope_ c)
    then (inputLevel + (envelope_ c - inputLevel) * attackCoeff_ c)%fl
    else (inputLevel + (envelope_ c - inputLevel) * releaseCoeff_ c)%fl in
  let gain := computeGain c envelope in
  ({| csettings_ := csettings_ c; envelope_ := envelope;
      currentGainReduction_ := (flit 20 * flog10 gain)%fl;
      attackCoeff_ := attackCoeff_ c;
      releaseCoeff_ := releaseCoeff_ c |},
   (x * gain)%fl).

Fixpoint Compressor_process (c : Compressor) (data : list F) : Compressor * list F :=
  match data with
  | [] => (c, [])
  | x :: rest =>
      let '(c1, y) := Compressor_step c x in
      let '(c2, ys) := Compressor_process c1 rest in
      (c2, y :: ys)
  end.
End Compressor.

Arguments CompressorSettings F : clear implicits.
Arguments Compressor F : clear implicits.

(** ** effects/equalizer.cpp *)

Section Equalizer.
Context `{FloatOps F}.

Inductive EQType : Type := PEAK | HIGH_SHELF | LOW_SHELF | HIGH_PASS | LOW_PASS.

Record EQBand : Type := mkEQBand {
  frequency : F;
  gain      : F;
  q         : F;
  type      : EQType
}.

Definition EQBand_default : EQBand :=
  {| frequency := flit 1000; gain := flit 0; q := flit (7 # 10); type := PEAK |}.

(** As in the source, [a0 a1 a2] multiply the input history and [b1 b2]
    the output history. *)
Record BiquadCoeffs : Type := mkBiquadCoeffs { a0 : F; a1 : F; a2 : F; b1 : F; b2 : F }.

Record BiquadState : Type := mkBiquadState { x1 : F; x2 : F; y1 : F; y2 : F }.

(** What [std::vector::resize] appends. *)
Definition BiquadCoeffs_zero : BiquadCoeffs :=
  {| a0 := flit 0; a1 := flit 0; a2 := flit 0; b1 := flit 0; b2 := flit 0 |}.
Definition BiquadState_zero : BiquadState :=
  {| x1 := flit 0; x2 := flit 0; y1 := flit 0; y2 := flit 0 |}.

Record Equalizer : Type := mkEqualizer {
  bands_  : list EQBand;
  coeffs_ : list BiquadCoeffs;
  states_ : list BiquadState
}.

Definition Equalizer_new : Equalizer :=
  {| bands_ := []; coeffs_ := []; states_ := [] |}.

Definition getBands (e : Equalizer) : list EQBand := bands_ e.

(** The three vectors are resized together. *)
Definition wf_equalizer (e : Equalizer) : Prop :=
  length (coeffs_ e) = length (bands_ e) /\ length (states_ e) = length (bands_ e).

Definition calculateCoeffs (band : EQBand) (sampleRate : F) : BiquadCoeffs :=
  let omega := (flit 2 * fpi * frequency band / sampleRate)%fl in
  let sin_omega := fsin omega in
  let cos_omega := fcos omega in
  let alpha := (sin_omega / (flit 2 * q band))%fl in
  let A := fpow (flit 10) (gain band / flit 40)%fl in
  match type band with
  | PEAK =>
      let b0' := (flit 1 + alpha * A)%fl in
      let b1' := (flit (-2) * cos_omega)%fl in
      let b2' := (flit 1 - alpha * A)%fl in
      let a0' := (flit 1 + alpha / A)%fl in
      let a1' := (flit (-2) * cos_omega)%fl in
      let a2' := (flit 1 - alpha / A)%fl in
      {| a0 := (b0' / a0')%fl; a1 := (b1' / a0')%fl; a2 := (b2' / a0')%fl;
         b1 := (a1' / a0')%fl; b2 := (a2' / a0')%fl |}
  | _ =>
      {| a0 := flit 1; a1 := flit 0; a2 := flit 0; b1 := flit 0; b2 := flit 0 |}
  end.

(** [for (i = 0; i < bands_.size(); ++i) coeffs_[i] = calculateCoeffs(bands_[i])]. *)
Definition updateCoefficients (e : Equalizer) (sampleRate : F) : Equalizer :=
  {| bands_  := bands_ e;
     coeffs_ :=
       foldl (fun cs i =>
                match bands_ e !! i with
                | Some band => <[i := calculateCoeffs band sampleRate]> cs
                | None => cs
                end)
             (coeffs_ e) (seq 0 (length (bands_ e)));
     states_ := states_ e |}.

Definition setBand (e : Equalizer) (index : nat) (band : EQBand) : Equalizer :=
  let e1 :=
    if decide (length (bands_ e) <= index) then
      {| bands_  := resize (index + 1) EQBand_default (bands_ e);
         coeffs_ := resize (index + 1) BiquadCoeffs_zero (coeffs_ e);
         states_ := resize (index + 1) BiquadState_zero (states_ e) |}
    else e in
  let e2 := {| bands_ := <[index := band]> (bands_ e1);
               coeffs_ := coeffs_ e1;
               states_ := states_ e1 |} in
  updateCoefficients e2 (flit 48000).

Definition clearBands (e : Equalizer) : Equalizer := Equalizer_new.

(** The body of the inner loop of [Equalizer::process]. *)
Definition biquad_step (c : BiquadCoeffs) (st : BiquadState) (input : F)
    : BiquadState * F :=
  let output := (a0 c * input + a1 c * x1 st + a2 c * x2 st
                 - b1 c * y1 st - b2 c * y2 st)%fl in
  ({| x1 := input; x2 := x1 st; y1 := output; y2 := y1 st |}, output).

(** The inner loop: one section over the whole block. *)
Fixpoint biquad_run (c : BiquadCoeffs) (st : BiquadState) (data : list F)
    : BiquadState * list F :=
  match data with
  | [] => (st, [])
  | input :: rest =>
      let '(st1, output) := biquad_step c st input in
      let '(st2, outs) := biquad_run c st1 rest in
      (st2, output :: outs)
  end.

(** One iteration of the outer loop: section [band] filters the block in
    place and keeps its state in [states_[band]]. *)
Definition process_band (coeffs : list BiquadCoeffs) (acc : list BiquadState * list F)
    (band : nat) : list BiquadState * list F :=
  let '(states, data) := acc in
  match coeffs !! band, states !! band with
  | Some c, Some st =>
      let '(st', out) := biquad_run c st data in
      (<[band := st']> states, out)
  | _, _ => acc
  end.

Definition Equalizer_process (e : Equalizer) (data : list F) : Equalizer * list F :=
  let '(states, out) :=
    foldl (process_band (coeffs_ e)) (states_ e, data) (seq 0 (length (bands_ e))) in
  ({| bands_ := bands_ e; coeffs_ := coeffs_ e; states_ := states |}, out).
End Equalizer.

Arguments EQBand F : clear implicits.
Arguments BiquadCoeffs F : clear implicits.
Arguments BiquadState F : clear implicits.
Arguments Equalizer F : clear implicits.

(** ** dsp/auto_mixer.cpp *)

Section AutoMixer.
Context `{FloatOps F}.

Record AutoMixerSettings : Type := mkAutoMixerSettings {
  targetLUFS              : F;
  maxGainReduction        : F;
  frequencySeparation     : F;
  enableDynamicEQ         : bool;
  enableSpatialProcessing : bool;
  mixBusCompRatio         : F;
  mixBusCompThreshold     : F
}.

Definition AutoMixerSettings_default : AutoMixerSettings :=
  {| targetLUFS := flit (-16); maxGainReduction := flit 12;
     frequencySeparation := flit 3;
     enableDynamicEQ := true; enableSpatialProcessing := true;
     mixBusCompRatio := flit 2; mixBusCompThreshold := flit (-6) |}.

Record AutoMixer : Type := mkAutoMixer {
  settings_         : AutoMixerSettings;
  analyzer_         : option (SpectrumAnalyzer F);
  mixBusCompressor_ : option (Compressor F)
}.

(** The constructor, with [initializeProcessors] inlined. *)
Definition AutoMixer_new (settings : AutoMixerSettings) : AutoMixer :=
  {| settings_ := settings;
     analyzer_ := Some (SpectrumAnalyzer_new 2048);
     mixBusCompressor_ := Some (Compressor_new CompressorSettings_default) |}.

Record MixParameters : Type := mkMixParameters {
  trackGains       : list F;
  trackEQs         : list (list (EQBand F));
  panPositions     : list F;
  mixBusCompressor : CompressorSettings F
}.

(** The two nested loops of [measureLUFS] carry [sum] and [totalSamples];
    their bounds [getNumChannels()] and [getNumSamples()] are the sizes of
    [data_] and of its planes. *)
Definition lufs_accumulate (buffer : AudioBuffer F) : F * nat :=
  foldl (fun acc plane =>
           foldl (fun '(sum, totalSamples) x => ((sum + x * x)%fl, S totalSamples))
                 acc plane)
        (flit 0, 0) (data_ buffer).

(** The two statements after the loops. *)
Definition lufs_of (sum : F) (totalSamples : nat) : F :=
  let meanSquare := (sum / of_size (Z.of_nat totalSamples))%fl in
  (flit (-691 # 1000)
   + flit 10 * flog10 (meanSquare + flit (1 # 10000000000)))%fl.

Definition measureLUFS (buffer : AudioBuffer F) : F :=
  let '(sum, totalSamples) := lufs_accumulate buffer in
  lufs_of sum totalSamples.

(** The last loop of [calculateOptimalLevels], for one track. *)
Definition level_gain (s : AutoMixerSettings) (lufs : F) : F :=
  let targetGain := (targetLUFS s - lufs)%fl in
  let targetGain := fmax targetGain (- maxGainReduction s)%fl in
  fpow (flit 10) (targetGain / flit 20)%fl.

(** [std::accumulate(..., 0.0f) / lufsValues.size()]; the value is not
    used by the gains. *)
Definition average_lufs (lufsValues : list F) : F :=
  (foldl fadd (flit 0) lufsValues / of_size (Z.of_nat (length lufsValues)))%fl.

Definition calculateOptimalLevels (m : AutoMixer) (tracks : list (AudioBuffer F))
    : list F :=
  let lufsValues := map measureLUFS tracks in
  let avgLUFS := average_lufs lufsValues in
  map (level_gain (settings_ m)) lufsValues.

Definition resolveFrequencyConflicts (tracks : list (AudioBuffer F))
    (eqSettings : list (list (EQBand F))) : list (list (EQBand F)) :=
  foldl (fun eqs i =>
           let band := {| frequency := (flit 1000 * of_size (Z.of_nat i + 1))%fl;
                          gain := flit 2; q := flit (7 # 10); type := PEAK |} in
           match eqs !! i with
           | Some bands => <[i := bands ++ [band]]> eqs
           | None => eqs
           end)
        eqSettings (seq 0 (length tracks)).

(** The loop of the [else] branch of [calculatePanPositions]. *)
Definition spread_positions (n : nat) : list F :=
  let panRange := flit (8 # 10) in
  let step := (flit 2 * panRange / of_size (size_sub n 1))%fl in
  map (fun i : nat => (- panRange + of_size (Z.of_nat i) * step)%fl) (seq 0 n).

Definition calculatePanPositions (tracks : list (AudioBuffer F)) : list F :=
  if decide (length tracks = 1) then [flit 0]
  else spread_positions (length tracks).

Definition analyzeTracks (m : AutoMixer) (tracks : list (AudioBuffer F))
    : MixParameters :=
  let s := settings_ m in
  let gains := calculateOptimalLevels m tracks in
  let eqs := replicate (length tracks) [] in
  let eqs := if enableDynamicEQ s then resolveFrequencyConflicts tracks eqs else eqs in
  let pans :=
    if enableSpatialProcessing s then calculatePanPositions tracks
    else replicate (length tracks) (flit 0) in
  {| trackGains := gains;
     trackEQs := eqs;
     panPositions := pans;
     mixBusCompressor :=
       {| threshold := mixBusCompThreshold s;
          ratio := mixBusCompRatio s;
          attack := flit 10;
          release := flit 100;
          knee := knee CompressorSettings_default;
          makeupGain := makeupGain CompressorSettings_default |} |}.

(** The body of the per-track loop of [process].  The EQ and pan branches
    are empty in the source ("EQ processing would go here", "Pan processing
    would go here"): both arms leave [trackCopy] as it is. *)
Definition mix_track (s : AutoMixerSettings) (mixBus : AudioBuffer F)
    (track : AudioBuffer F) (g : F) (eqs : list (EQBand F)) : AudioBuffer F :=
  let trackCopy := track in
  let trackCopy := applyGain trackCopy g in
  let trackCopy :=
    if enableDynamicEQ s && negb (bool_decide (eqs = [])) then trackCopy
    else trackCopy in
  let trackCopy := if enableSpatialProcessing s then trackCopy else trackCopy in
  addFrom mixBus trackCopy (flit 1).

(** The per-track loop: [i] runs over [tracks], [trackGains] and [trackEQs]
    in step. *)
Fixpoint mix_tracks (s : AutoMixerSettings) (mixBus : AudioBuffer F)
    (tracks : list (AudioBuffer F)) (gains : list F) (eqs : list (list (EQBand F)))
    : AudioBuffer F :=
  match tracks, gains, eqs with
  | track :: tracks', g :: gains', e :: eqs' =>
      mix_tracks s (mix_track s mixBus track g e) tracks' gains' eqs'
  | _, _, _ => mixBus
  end.

Definition maxSamples (tracks : list (AudioBuffer F)) : nat :=
  foldl (fun acc track => Nat.max acc (getNumSamples track)) 0 tracks.

(** [process].  The compressor branch is empty in the source ("Compression
    would go here"). *)
Definition process (m : AutoMixer) (tracks : list (AudioBuffer F)) : AudioBuffer F :=
  match tracks with
  | [] => AudioBuffer_new 2 0
  | _ =>
      let mixParams := analyzeTracks m tracks in
      let mixBus := AudioBuffer_new 2 (maxSamples tracks) in
      let mixBus :=
        mix_tracks (settings_ m) mixBus tracks
                   (trackGains mixParams) (trackEQs mixParams) in
      let mixBus :=
        match mixBusCompressor_ m with
        | Some _ => mixBus
        | None => mixBus
        end in
      mixBus
  end.
End AutoMixer.

Arguments AutoMixerSettings F : clear implicits.
Arguments AutoMixer F : clear implicits.
Arguments MixParameters F : clear implicits.

(** ** Analysis with every division guarded

    The same analysis, with each division replaced by one that reports a
    zero divisor instead of computing.  Divisors are the [size_t] values
    before their conversion to [float]. *)

Inductive div_fault : Type :=
  | MeanSquareByZero (track : nat)   (* [sum / totalSamples] in [measureLUFS] *)
  | AverageByZero                    (* [... / lufsValues.size()] *)
  | PanStepByZero.                   (* [... / (tracks.size() - 1)] *)

Inductive checked (A : Type) : Type :=
  | Done (a : A)
  | Fault (f : div_fault).
Arguments Done {A} a.
Arguments Fault {A} f.

#[export] Instance checked_bind : MBind checked :=
  fun A B (k : A -> checked B) (c : checked A) =>
    match c with
    | Done a => k a
    | Fault f => Fault f
    end.

Section CheckedAnalysis.
Context `{FloatOps F}.

Definition measureLUFS_checked (i : nat) (buffer : AudioBuffer F) : checked F :=
  let '(sum, totalSamples) := lufs_accumulate buffer in
  if decide (totalSamples = 0) then Fault (MeanSquareByZero i)
  else Done (lufs_of sum totalSamples).

(** The first loop of [calculateOptimalLevels], track [i] onwards. *)
Fixpoint measure_all_checked (i : nat) (tracks : list (AudioBuffer F))
    : checked (list F) :=
  match tracks with
  | [] => Done []
  | track :: rest =>
      l ← measureLUFS_checked i track;
      ls ← measure_all_checked (S i) rest;
      Done (l :: ls)
  end.

Definition calculateOptimalLevels_checked (m : AutoMixer F)
    (tracks : list (AudioBuffer F)) : checked (list F) :=
  lufsValues ← measure_all_checked 0 tracks;
  if decide (length lufsValues = 0) then Fault AverageByZero
  else
    let avgLUFS := average_lufs lufsValues in
    Done (map (level_gain (settings_ m)) lufsValues).

Definition calculatePanPositions_checked (tracks : list (AudioBuffer F))
    : checked (list F) :=
  if decide (length tracks = 1) then Done [flit 0]
  else if decide (size_sub (length tracks) 1 = 0%Z) then Fault PanStepByZero
  else Done (spread_positions (length tracks)).

Definition analyzeTracks_checked (m : AutoMixer F) (tracks : list (AudioBuffer F))
    : checked (MixParameters F) :=
  let s := settings_ m in
  gains ← calculateOptimalLevels_checked m tracks;
  let eqs := replicate (length tracks) [] in
  let eqs := if enableDynamicEQ s then resolveFrequencyConflicts tracks eqs else eqs in
  pans ← (if enableSpatialProcessing s then calculatePanPositions_checked tracks
          else Done (replicate (length tracks) (flit 0)));
  Done {| trackGains := gains;
          trackEQs := eqs;
          panPositions := pans;
          mixBusCompressor := mixBusCompressor (analyzeTracks m tracks) |}.
End CheckedAnalysis.

(** ** Exact real arithmetic

    Floats read as real numbers: nothing is rounded, nothing overflows and
    there is no NaN or infinity.  Division is [Rdiv], which gives 0 on a
    zero divisor where a float gives NaN or an infinity; statements under
    this instance therefore carry the hypotheses that keep every divisor
    they reach away from 0, and they speak of finite samples, settings and
    section states only. *)

Definition R_ltb (a b : R) : bool := if Rlt_dec a b then true else false.

(** Conversion to an unsigned integer truncates toward zero.
    [static_cast<size_t>] is defined only when the truncated value is one a
    [size_t] holds, that is, in [0, 2^64); statements about [to_size] carry
    that range as a hypothesis. *)
Definition R_trunc (x : R) : Z := if Rlt_dec x 0 then Zceil x else Zfloor x.

Definition R_log10 (x : R) : R := (ln x / ln 10)%R.

#[export] Instance R_ops : FloatOps R := {|
  flit := Q2R;
  of_size := IZR;
  to_size := R_trunc;
  fadd := Rplus;
  fsub := Rminus;
  fmul := Rmult;
  fdiv := Rdiv;
  fneg := Ropp;
  fltb := R_ltb;
  fabs := Rabs;
  fexp := exp;
  flog10 := R_log10;
  fsin := sin;
  fcos := cos;
  fpow := Rpower;
  fpi := PI
|}.

(** ** Rounded arithmetic

    The same operations with every arithmetic result rounded by [rnd] to a
    representable value, as a float operation delivers it (overflow and NaN
    aside); comparison, negation and absolute value are exact on
    representable values.  Nothing is assumed of [rnd]; [R_ops] is the case
    where nothing is rounded. *)
Definition rounded_ops (rnd : R -> R) : FloatOps R := {|
  flit := fun x => rnd (Q2R x);
  of_size := fun z => rnd (IZR z);
  to_size := R_trunc;
  fadd := fun x y => rnd (x + y)%R;
  fsub := fun x y => rnd (x - y)%R;
  fmul := fun x y => rnd (x * y)%R;
  fdiv := fun x y => rnd (x / y)%R;
  fneg := Ropp;
  fltb := R_ltb;
  fabs := Rabs;
  fexp := fun x => rnd (exp x);
  flog10 := fun x => rnd (R_log10 x);
  fsin := fun x => rnd (sin x);
  fcos := fun x => rnd (cos x);
  fpow := fun x y => rnd (Rpower x y);
  fpi := rnd PI
|}.

(** The value [frequency * fftSize_ / sampleRate] has before the cast in
    [getFrequencyBin]: [fftSize_] converted to float, then the product and
    the quotient, each rounded. *)
Definition bin_quotient (rnd : R -> R) (a : SpectrumAnalyzer R) (hz fs : R) : R :=
  rnd (rnd (hz * rnd (INR (fftSize_ a))) / fs)%R.

(** [AutoMixer()] with the default settings. *)
Definition default_mixer : AutoMixer R := AutoMixer_new AutoMixerSettings_default.

(** Literals become real constants. *)
Ltac q2r :=
  unfold Q2R in *; cbn [Qnum Qden] in *;
  rewrite ?Rinv_1, ?Rmult_1_r in *.

(** ** What one track adds to one bus sample *)

Section BusSum.
Context `{FloatOps F}.

(** After [applyGain(g)] and [addFrom(trackCopy, 1.0f)], a track that has a
    sample [x] at plane [ch], index [n], adds [(x * g) * 1.0f] there. *)
Definition contribution (track : AudioBuffer F) (g : F) (ch n : nat) : option F :=
  match sample track ch n with
  | Some x => Some (x * g * flit 1)%fl
  | None => None
  end.

(** The additions to bus sample [(ch, n)], in track order. *)
Fixpoint bus_sum (acc : F) (tracks : list (AudioBuffer F)) (gains : list F)
    (ch n : nat) : F :=
  match tracks, gains with
  | track :: tracks', g :: gains' =>
      let acc' := match contribution track g ch n with
                  | Some c => (acc + c)%fl
                  | None => acc
                  end in
      bus_sum acc' tracks' gains' ch n
  | _, _ => acc
  end.
End BusSum.

(** ** Inputs and mixers used in the statements *)

Section Variations.
Context `{FloatOps F}.

(** A one-plane buffer holding [xs]: [AudioBuffer(1, xs.size())] filled
    through [getChannelData(0)]. *)
Definition mono_track (xs : list F) : AudioBuffer F :=
  {| channels_ := 1; samples_ := length xs; data_ := [xs] |}.

(** The same mixer with [enableSpatialProcessing] set to [b]. *)
Definition with_spatial (m : AutoMixer F) (b : bool) : AutoMixer F :=
  {| settings_ :=
       {| targetLUFS := targetLUFS (settings_ m);
          maxGainReduction := maxGainReduction (settings_ m);
          frequencySeparation := frequencySeparation (settings_ m);
          enableDynamicEQ := enableDynamicEQ (settings_ m);
          enableSpatialProcessing := b;
          mixBusCompRatio := mixBusCompRatio (settings_ m);
          mixBusCompThreshold := mixBusCompThreshold (settings_ m) |};
     analyzer_ := analyzer_ m;
     mixBusCompressor_ := mixBusCompressor_ m |}.

(** The same mixer with another bus-compressor configuration and object. *)
Definition with_bus_compressor (m : AutoMixer F) (thr rat : F)
    (c : option (Compressor F)) : AutoMixer F :=
  {| settings_ :=
       {| targetLUFS := targetLUFS (settings_ m);
          maxGainReduction := maxGainReduction (settings_ m);
          frequencySeparation := frequencySeparation (settings_ m);
          enableDynamicEQ := enableDynamicEQ (settings_ m);
          enableSpatialProcessing := enableSpatialProcessing (settings_ m);
          mixBusCompRatio := rat;
          mixBusCompThreshold := thr |};
     analyzer_ := analyzer_ m;
     mixBusCompressor_ := c |}.
End Variations.

(** ** The cascade, section by section

    The outer loop of [Equalizer::process] read off the two vectors in step;
    [process_as_cascade] below shows it is the same computation. *)

Section Cascade.
Context `{FloatOps F}.

Fixpoint cascade (cs : list (BiquadCoeffs F)) (sts : list (BiquadState F))
    (data : list F) : list (BiquadState F) * list F :=
  match cs, sts with
  | c :: cs', st :: sts' =>
      let '(st', out) := biquad_run c st data in
      let '(sts'', out') := cascade cs' sts' out in
      (st' :: sts'', out')
  | _, _ => (sts, data)
  end.

(** A block handed to [process] piece by piece, in order. *)
Fixpoint process_chunks (e : Equalizer F) (chunks : list (list F))
    : Equalizer F * list F :=
  match chunks with
  | [] => (e, [])
  | chunk :: rest =>
      let '(e1, out1) := Equalizer_process e chunk in
      let '(e2, out2) := process_chunks e1 rest in
      (e2, out1 ++ out2)
  end.
End Cascade.

(** ** Equalizers a caller can build *)

Section Configured.
Context `{FloatOps F}.

(** The states of an [Equalizer] object reachable through its public
    members. *)
Inductive configured : Equalizer F -> Prop :=
  | configured_new : configured Equalizer_new
  | configured_setBand e index band :
      configured e -> configured (setBand e index band)
  | configured_clearBands e :
      configured e -> configured (clearBands e)
  | configured_process e data :
      configured e -> configured (Equalizer_process e data).1.
End Configured.

(** ** Sums of squares *)

Section SumSquares.
Context `{FloatOps F}.

(** [sum += x * x] over a run of samples, starting from [0.0f]. *)
Definition sum_squares (xs : list F) : F :=
  foldl (fun sum x => (sum + x * x)%fl) (flit 0) xs.
End SumSquares.

(** ** Reference formulas, as the specification words them

    Real-valued; each is compared below with what the code computes under
    [R_ops]. *)

(** Equal-power pan of a sample [x] at position [p]: (left, right). *)
Definition equal_power_pan (p x : R) : R * R :=
  let theta := ((p + 1) * PI / 4)%R in
  ((x * cos theta)%R, (x * sin theta)%R).

(** The mean of [x^2] over all channels and samples of a buffer. *)
Definition mean_square (b : AudioBuffer R) : R :=
  (fold_right Rplus 0 (map (fun x => x * x) (concat (data_ b)))
   / INR (channels_ b * samples_ b))%R.

(** Loudness with the mean square floored at [1e-10]. *)
Definition lufs_floored (b : AudioBuffer R) : R :=
  (- (691 / 1000) + 10 * R_log10 (Rmax (mean_square b) (1 / 10000000000)))%R.

(** Loudness with [1e-10] added to the mean square. *)
Definition lufs_offset (b : AudioBuffer R) : R :=
  (- (691 / 1000) + 10 * R_log10 (mean_square b + 1 / 10000000000))%R.

(** [10^(max(target - L, -max_reduction)/20)]. *)
Definition clamped_gain (target max_reduction L : R) : R :=
  Rpower 10 (Rmax (target - L) (- max_reduction) / 20).

(** The soft-knee static curve: gain reduction in dB at [level_db]. *)
Definition soft_knee_gr (T W ratio level_db : R) : R :=
  if Rle_dec level_db (T - W / 2) then 0%R
  else if Rle_dec (T + W / 2) level_db then ((level_db - T) * (1 - 1 / ratio))%R
  else
    let t := ((level_db - (T - W / 2)) / W)%R in
    ((level_db - T) * (1 - 1 / ratio) * (t * t))%R.

Definition soft_knee_gain (T W ratio makeup env : R) : R :=
  let level_db := (20 * R_log10 (Rmax env (1 / 10000000000)))%R in
  Rpower 10 ((- soft_knee_gr T W ratio level_db + makeup) / 20).

(** The nearest integer, halves upward. *)
Definition round_nearest (x : R) : Z := Zfloor (x + / 2).

(** ** python/bindings.cpp: array conversion *)

Section Bindings.
Context `{FloatOps F}.

(** A [py::array_t<float>] as [request()] shows it: the shape, and the
    elements [ptr[0], ptr[1], ...] in memory order. *)
Record ndarray : Type := mkNdarray {
  shape    : list nat;
  elements : list F
}.

Definition wf_ndarray (a : ndarray) : Prop :=
  length (elements a) = foldr Nat.mul 1 (shape a).

(** [samples] reads [get i] for [i = 0 .. samples - 1]; out of bounds reads
    0 here. *)
Definition read_row (get : nat -> option F) (samples : nat) : list F :=
  map (fun i => default (flit 0) (get i)) (seq 0 samples).

(** [numpy_to_buffer]; [None] is the [std::runtime_error] thrown when the
    input is not 2-D. *)
Definition numpy_to_buffer (input : ndarray) : option (AudioBuffer F) :=
  match shape input with
  | [channels; samples] =>
      Some {| channels_ := channels;
              samples_ := samples;
              data_ :=
                map (fun ch =>
                       read_row (fun i => elements input !! (ch * samples + i)) samples)
                    (seq 0 channels) |}
  | _ => None
  end.

Definition buffer_to_numpy (buffer : AudioBuffer F) : ndarray :=
  let channels := getNumChannels buffer in
  let samples := getNumSamples buffer in
  {| shape := [channels; samples];
     elements :=
       concat (map (fun ch => read_row (fun i => sample buffer ch i) samples)
                   (seq 0 channels)) |}.
End Bindings.

Arguments ndarray F : clear implicits.

(** ** Names for what the statements below speak about *)

Section PlanNames.
Context `{FloatOps F}.

(** The band [resolveFrequencyConflicts] appends for track [i]. *)
Definition planned_band (i : nat) : EQBand F :=
  {| frequency := (flit 1000 * of_size (Z.of_nat i + 1))%fl;
     gain := flit 2; q := flit (7 # 10); type := PEAK |}.
End PlanNames.

(** A section whose input and output histories agree, as at construction. *)
Definition balanced (st : BiquadState R) : Prop := x1 st = y1 st /\ x2 st = y2 st.

(** Coefficients that make the difference equation [y = x] on a balanced
    section. *)
Definition unit_section (c : BiquadCoeffs R) : Prop :=
  a0 c = 1%R /\ a1 c = b1 c /\ a2 c = b2 c.

(** [alpha] of [calculateCoeffs] at 48 kHz. *)
Definition band_alpha (band : EQBand R) : R :=
  (sin (2 * PI * frequency band / 48000) / (2 * q band))%R.

(** A band of an unimplemented type, or a [PEAK] band of 0 dB whose
    divisors [2 * q] and [1 + alpha / A] are not 0. *)
Definition transparent_band (band : EQBand R) : Prop :=
  type band <> PEAK \/
  (gain band = 0%R /\ q band <> 0%R /\ (1 + band_alpha band)%R <> 0%R).

(** The level in dB that [computeGain] derives from an envelope value. *)
Definition level_db (env : R) : R := (20 * R_log10 (Rmax env (1 / 10000000000)))%R.

(** A buffer whose samples are all zero. *)
Definition silent (b : AudioBuffer R) : Prop :=
  Forall (Forall (fun x => x = 0%R)) (data_ b).

(** * Properties *)

(** ** Prefix updates and buffers *)

Section BufferFacts.
Context `{FloatOps F}.
Implicit Types (b self other : AudioBuffer F).

Lemma update_prefix_length {A B} (f : A -> B -> A) n (dst : list A) (src : list B) :
  length (update_prefix f n dst src) = length dst.
Proof.
  revert dst src; induction n as [|n IH]; intros [|d dst] [|s src]; simpl; auto.
Qed.

Lemma update_prefix_lookup {A B} (f : A -> B -> A) n (dst : list A) (src : list B) i :
  update_prefix f n dst src !! i =
  match dst !! i, src !! i with
  | Some d, Some s => Some (if decide (i < n) then f d s else d)
  | r, _ => r
  end.
Proof.
  revert dst src i; induction n as [|n IH]; intros dst src i.
  - destruct dst, src; simpl; repeat case_match; try reflexivity; lia.
  - destruct dst as [|d dst], src as [|s src]; simpl.
    + reflexivity.
    + reflexivity.
    + destruct (_ !! i); reflexivity.
    + destruct i as [|i]; simpl.
      * reflexivity.
      * rewrite IH. repeat case_match; try reflexivity; lia.
Qed.

Lemma wf_AudioBuffer_new channels samples :
  wf_buffer (AudioBuffer_new (F:=F) channels samples).
Proof.
  split; simpl.
  - apply length_replicate.
  - apply Forall_replicate, length_replicate.
Qed.

Lemma wf_applyGain b g : wf_buffer b -> wf_buffer (applyGain b g).
Proof.
  intros [Hc Hs]; split; simpl.
  - now rewrite length_map.
  - apply Forall_fmap. eapply Forall_impl; [exact Hs|].
    intros plane Hp; simpl. now rewrite length_map.
Qed.

Lemma wf_addFrom self other g : wf_buffer self -> wf_buffer (addFrom self other g).
Proof.
  intros [Hc Hs]; split; simpl.
  - now rewrite update_prefix_length.
  - apply Forall_lookup. intros i plane Hi.
    rewrite update_prefix_lookup in Hi.
    destruct (data_ self !! i) as [d|] eqn:Hd; [|discriminate].
    pose proof (Forall_lookup_1 _ _ _ _ Hs Hd) as Hlen; simpl in Hlen.
    destruct (data_ other !! i); simplify_eq; [|exact Hlen].
    case_decide; [|exact Hlen].
    now rewrite update_prefix_length.
Qed.

Lemma sample_Some_bounds b ch n x :
  wf_buffer b -> sample b ch n = Some x -> ch < channels_ b /\ n < samples_ b.
Proof.
  intros [Hc Hs]; unfold sample.
  destruct (data_ b !! ch) as [plane|] eqn:Hp; [|discriminate].
  intros Hn. pose proof (Forall_lookup_1 _ _ _ _ Hs Hp) as Hlen; simpl in Hlen.
  apply lookup_lt_Some in Hp, Hn. lia.
Qed.

Lemma sample_in_bounds b ch n :
  wf_buffer b -> ch < channels_ b -> n < samples_ b -> is_Some (sample b ch n).
Proof.
  intros [Hc Hs] Hch Hn; unfold sample.
  destruct (lookup_lt_is_Some_2 (data_ b) ch) as [plane Hp]; [lia|].
  rewrite Hp. apply lookup_lt_is_Some_2.
  pose proof (Forall_lookup_1 _ _ _ _ Hs Hp) as Hlen; simpl in Hlen. lia.
Qed.

Lemma sample_AudioBuffer_new channels samples ch n :
  ch < channels -> n < samples ->
  sample (AudioBuffer_new (F:=F) channels samples) ch n = Some (flit 0).
Proof.
  intros Hch Hn; unfold sample; simpl.
  rewrite lookup_replicate_2 by assumption.
  now apply lookup_replicate_2.
Qed.

Lemma sample_applyGain b g ch n :
  sample (applyGain b g) ch n =
  match sample b ch n with Some x => Some (x * g)%fl | None => None end.
Proof.
  unfold sample; simpl. rewrite list_lookup_fmap.
  destruct (data_ b !! ch) as [plane|]; simpl; [|reflexivity].
  rewrite list_lookup_fmap. now destruct (plane !! n).
Qed.

Lemma sample_addFrom self other g ch n :
  wf_buffer self -> wf_buffer other ->
  sample (addFrom self other g) ch n =
  match sample self ch n, sample other ch n with
  | Some d, Some s => Some (d + s * g)%fl
  | r, _ => r
  end.
Proof.
  intros Hself Hother.
  destruct (sample self ch n) as [d|] eqn:Hd;
    destruct (sample other ch n) as [s|] eqn:Hs.
  - destruct (sample_Some_bounds _ _ _ _ Hself Hd).
    destruct (sample_Some_bounds _ _ _ _ Hother Hs).
    revert Hd Hs. unfold sample; simpl. rewrite update_prefix_lookup.
    destruct (data_ self !! ch) as [pd|]; [|discriminate].
    destruct (data_ other !! ch) as [ps|]; [|discriminate].
    intros Hd Hs. rewrite decide_True by lia.
    rewrite update_prefix_lookup, Hd, Hs. now rewrite decide_True by lia.
  - revert Hd Hs. unfold sample; simpl. rewrite update_prefix_lookup.
    destruct (data_ self !! ch) as [pd|]; [|discriminate].
    destruct (data_ other !! ch) as [ps|]; [|auto].
    intros Hd Hs. case_decide; [|exact Hd].
    now rewrite update_prefix_lookup, Hd, Hs.
  - revert Hd. unfold sample; simpl. rewrite update_prefix_lookup.
    destruct (data_ self !! ch) as [pd|]; [|reflexivity].
    destruct (data_ other !! ch) as [ps|]; [|auto].
    intros Hd. case_decide; [|exact Hd].
    now rewrite update_prefix_lookup, Hd.
  - revert Hd. unfold sample; simpl. rewrite update_prefix_lookup.
    destruct (data_ self !! ch) as [pd|]; [|reflexivity].
    destruct (data_ other !! ch) as [ps|]; [|auto].
    intros Hd. case_decide; [|exact Hd].
    now rewrite update_prefix_lookup, Hd.
Qed.
End BufferFacts.

(** ** The render loop *)

Section RenderFacts.
Context `{FloatOps F}.
Implicit Types (m : AutoMixer F) (s : AutoMixerSettings F).
Implicit Types (tracks : list (AudioBuffer F)) (bus track : AudioBuffer F).

(** Neither flag changes what a track adds. *)
Lemma mix_track_unfold s bus track g eqs :
  mix_track s bus track g eqs = addFrom bus (applyGain track g) (flit 1).
Proof.
  unfold mix_track.
  destruct (enableDynamicEQ s && negb (bool_decide (eqs = [])));
    destruct (enableSpatialProcessing s); reflexivity.
Qed.

Lemma mix_tracks_flags s s' bus tracks gains eqs :
  mix_tracks s bus tracks gains eqs = mix_tracks s' bus tracks gains eqs.
Proof.
  revert bus gains eqs; induction tracks as [|t tracks IH];
    intros bus [|g gains] [|e eqs]; simpl; try reflexivity.
  rewrite !mix_track_unfold. apply IH.
Qed.

Lemma mix_tracks_channels s bus tracks gains eqs :
  channels_ (mix_tracks s bus tracks gains eqs) = channels_ bus.
Proof.
  revert bus gains eqs; induction tracks as [|t tracks IH];
    intros bus [|g gains] [|e eqs]; simpl; try reflexivity.
  rewrite IH, mix_track_unfold. reflexivity.
Qed.

Lemma mix_tracks_samples s bus tracks gains eqs :
  samples_ (mix_tracks s bus tracks gains eqs) = samples_ bus.
Proof.
  revert bus gains eqs; induction tracks as [|t tracks IH];
    intros bus [|g gains] [|e eqs]; simpl; try reflexivity.
  rewrite IH, mix_track_unfold. reflexivity.
Qed.

Lemma wf_mix_tracks s bus tracks gains eqs :
  wf_buffer bus -> wf_buffer (mix_tracks s bus tracks gains eqs).
Proof.
  revert bus gains eqs; induction tracks as [|t tracks IH];
    intros bus [|g gains] [|e eqs] Hbus; simpl; try assumption.
  apply IH. rewrite mix_track_unfold. now apply wf_addFrom.
Qed.

(** Every bus sample is the running sum of the tracks' contributions. *)
Lemma sample_mix_tracks s bus tracks gains eqs ch n :
  wf_buffer bus -> Forall wf_buffer tracks ->
  length gains = length tracks -> length eqs = length tracks ->
  sample (mix_tracks s bus tracks gains eqs) ch n =
  match sample bus ch n with
  | Some d => Some (bus_sum d tracks gains ch n)
  | None => None
  end.
Proof.
  revert bus gains eqs; induction tracks as [|t tracks IH];
    intros bus [|g gains] [|e eqs] Hbus Htr Hg He; simpl in *; try discriminate.
  - now destruct (sample bus ch n).
  - inversion Htr as [|? ? Ht Htr']; subst.
    rewrite IH; [|rewrite mix_track_unfold; now apply wf_addFrom|assumption|lia|lia].
    rewrite mix_track_unfold, sample_addFrom by (try apply wf_applyGain; assumption).
    rewrite sample_applyGain. unfold contribution.
    destruct (sample bus ch n) as [d|]; [|reflexivity].
    destruct (sample t ch n) as [x|]; reflexivity.
Qed.

Lemma maxSamples_max_list tracks :
  maxSamples tracks = max_list (map samples_ tracks).
Proof.
  unfold maxSamples, getNumSamples.
  assert (Hgen : forall acc,
    foldl (fun a t => Nat.max a (samples_ t)) acc tracks
    = Nat.max acc (max_list (map samples_ tracks))).
  { induction tracks as [|t tracks IH]; intros acc; simpl.
    - lia.
    - rewrite IH. lia. }
  rewrite Hgen. lia.
Qed.

Lemma length_calculateOptimalLevels m tracks :
  length (calculateOptimalLevels m tracks) = length tracks.
Proof. unfold calculateOptimalLevels. now rewrite !length_map. Qed.

Lemma length_resolveFrequencyConflicts tracks eqs :
  length (resolveFrequencyConflicts tracks eqs) = length eqs.
Proof.
  unfold resolveFrequencyConflicts.
  generalize (seq 0 (length tracks)) as idx.
  intros idx; revert eqs; induction idx as [|i idx IH]; intros eqs; simpl.
  - reflexivity.
  - rewrite IH. destruct (eqs !! i); [apply length_insert|reflexivity].
Qed.

Lemma length_trackGains m tracks :
  length (trackGains (analyzeTracks m tracks)) = length tracks.
Proof. apply length_calculateOptimalLevels. Qed.

Lemma length_trackEQs m tracks :
  length (trackEQs (analyzeTracks m tracks)) = length tracks.
Proof.
  simpl. destruct (enableDynamicEQ (settings_ m)).
  - now rewrite length_resolveFrequencyConflicts, length_replicate.
  - apply length_replicate.
Qed.

(** [process] on a non-empty list, without the empty branches. *)
Lemma process_nonempty m tracks :
  tracks <> [] ->
  process m tracks =
  mix_tracks (settings_ m) (AudioBuffer_new 2 (maxSamples tracks)) tracks
             (trackGains (analyzeTracks m tracks))
             (trackEQs (analyzeTracks m tracks)).
Proof.
  intros Hne. unfold process. destruct tracks as [|t tracks]; [congruence|].
  destruct (mixBusCompressor_ m); reflexivity.
Qed.

Lemma sample_process m tracks ch n :
  Forall wf_buffer tracks -> ch < 2 -> n < maxSamples tracks ->
  sample (process m tracks) ch n =
  Some (bus_sum (flit 0) tracks (trackGains (analyzeTracks m tracks)) ch n).
Proof.
  intros Hwf Hch Hn.
  assert (Hne : tracks <> []) by (intros ->; unfold maxSamples in Hn; simpl in Hn; lia).
  rewrite process_nonempty by assumption.
  rewrite sample_mix_tracks;
    auto using wf_AudioBuffer_new, length_trackGains, length_trackEQs.
  now rewrite sample_AudioBuffer_new.
Qed.

Lemma contribution_past_end track g ch n :
  wf_buffer track -> samples_ track <= n -> contribution track g ch n = None.
Proof.
  intros Hwf Hn. unfold contribution.
  destruct (sample track ch n) as [x|] eqn:Hx; [|reflexivity].
  apply sample_Some_bounds in Hx; [lia|assumption].
Qed.

Lemma contribution_no_channel track g ch n :
  wf_buffer track -> channels_ track <= ch -> contribution track g ch n = None.
Proof.
  intros Hwf Hn. unfold contribution.
  destruct (sample track ch n) as [x|] eqn:Hx; [|reflexivity].
  apply sample_Some_bounds in Hx; [lia|assumption].
Qed.

Lemma process_shape m tracks :
  channels_ (process m tracks) = 2 /\
  samples_ (process m tracks) = maxSamples tracks /\
  wf_buffer (process m tracks).
Proof.
  destruct tracks as [|t tracks].
  - split; [reflexivity|split; [reflexivity|apply (wf_AudioBuffer_new 2 0)]].
  - rewrite process_nonempty by discriminate.
    rewrite mix_tracks_channels, mix_tracks_samples.
    split; [reflexivity|split; [reflexivity|]].
    apply wf_mix_tracks, wf_AudioBuffer_new.
Qed.
End RenderFacts.

(** ** Render: shape of the output, and the stages that do not run *)

Section RenderClaims.
Context `{FloatOps F}.
Implicit Types (m : AutoMixer F) (tracks : list (AudioBuffer F)).

Lemma bus_sum_no_channel acc tracks gains ch n :
  Forall wf_buffer tracks -> Forall (fun t => channels_ t <= ch) tracks ->
  bus_sum acc tracks gains ch n = acc.
Proof.
  revert acc gains; induction tracks as [|t tracks IH];
    intros acc [|g gains] Hwf Hch; simpl; try reflexivity.
  inversion Hwf; inversion Hch; subst.
  rewrite contribution_no_channel by assumption. now apply IH.
Qed.

Lemma calculateOptimalLevels_settings m m' tracks :
  targetLUFS (settings_ m') = targetLUFS (settings_ m) ->
  maxGainReduction (settings_ m') = maxGainReduction (settings_ m) ->
  calculateOptimalLevels m' tracks = calculateOptimalLevels m tracks.
Proof.
  intros Ht Hg. unfold calculateOptimalLevels.
  apply map_ext; intros lufs. unfold level_gain. now rewrite Ht, Hg.
Qed.

(** The rendered buffer depends on the mixer only through [targetLUFS],
    [maxGainReduction] and [enableDynamicEQ]. *)
Lemma process_settings m m' tracks :
  targetLUFS (settings_ m') = targetLUFS (settings_ m) ->
  maxGainReduction (settings_ m') = maxGainReduction (settings_ m) ->
  enableDynamicEQ (settings_ m') = enableDynamicEQ (settings_ m) ->
  process m' tracks = process m tracks.
Proof.
  intros Ht Hg He. destruct tracks as [|t tracks]; [reflexivity|].
  rewrite !process_nonempty by discriminate.
  rewrite (mix_tracks_flags (settings_ m') (settings_ m)).
  f_equal.
  - now apply calculateOptimalLevels_settings.
  - simpl. now rewrite He.
Qed.

(** Two mono tracks of lengths 1 and 2: the second output sample holds the
    second track's sample only. *)
Example ragged_tracks m (a b c : F) :
  let tracks := [mono_track [a]; mono_track [b; c]] in
  let g1 := level_gain (settings_ m) (measureLUFS (mono_track [a])) in
  let g2 := level_gain (settings_ m) (measureLUFS (mono_track [b; c])) in
  data_ (process m tracks) =
  [ [ (flit 0 + a * g1 * flit 1 + b * g2 * flit 1)%fl;
      (flit 0 + c * g2 * flit 1)%fl ];
    [ flit 0; flit 0 ] ].
Proof.
  destruct m as [[target maxred sep dynamicEQ spatial rat thr] an comp].
  destruct dynamicEQ, spatial, comp; reflexivity.
Qed.

(** C4.  [process] returns a well-formed buffer of exactly two planes whose
    length is the largest sample count among the tracks ([(2, 0)] for the
    empty list).  Every output sample is the sum, in track order, of what
    the tracks have at that position, and a track has nothing at positions
    at or past its own length. *)
Theorem process_output_shape m tracks :
  Forall wf_buffer tracks ->
  process m [] = AudioBuffer_new 2 0 /\
  getNumChannels (process m tracks) = 2 /\
  getNumSamples (process m tracks) = max_list (map samples_ tracks) /\
  wf_buffer (process m tracks) /\
  (forall ch n, ch < 2 -> n < max_list (map samples_ tracks) ->
     sample (process m tracks) ch n =
     Some (bus_sum (flit 0) tracks (trackGains (analyzeTracks m tracks)) ch n)) /\
  (forall track g ch n, track ∈ tracks -> getNumSamples track <= n ->
     contribution track g ch n = None).
Proof.
  intros Hwf. destruct (process_shape m tracks) as (Hc & Hs & Hw).
  rewrite <- maxSamples_max_list.
  split; [reflexivity|]. split; [exact Hc|]. split; [exact Hs|].
  split; [exact Hw|]. split.
  - intros ch n Hch Hn. now apply sample_process.
  - intros track g ch n Hin Hn. apply contribution_past_end; [|exact Hn].
    rewrite Forall_forall in Hwf. now apply Hwf.
Qed.

(** C1, as the code has it.  With [enableSpatialProcessing] on, pan
    positions are planned but no pan gain is applied: the rendered buffer is
    the one rendered with the flag off, a sample [x] of plane [ch] of a
    track adds [(x * gain) * 1] to bus plane [ch], and tracks with one plane
    leave the right bus plane at its initial zero. *)
Theorem pan_planned_not_applied m tracks :
  enableSpatialProcessing (settings_ m) = true ->
  tracks <> [] ->
  Forall wf_buffer tracks ->
  panPositions (analyzeTracks m tracks) = calculatePanPositions tracks /\
  process m tracks = process (with_spatial m false) tracks /\
  (forall ch n, ch < 2 -> n < maxSamples tracks ->
     sample (process m tracks) ch n =
     Some (bus_sum (flit 0) tracks (trackGains (analyzeTracks m tracks)) ch n)) /\
  (Forall (fun t => getNumChannels t = 1) tracks ->
   forall n, n < maxSamples tracks ->
     sample (process m tracks) 1 n = Some (flit 0)).
Proof.
  intros Hflag Hne Hwf. split; [|split; [|split]].
  - simpl. now rewrite Hflag.
  - symmetry. now apply process_settings.
  - intros ch n Hch Hn. now apply sample_process.
  - intros Hmono n Hn. rewrite sample_process by (assumption || lia).
    rewrite bus_sum_no_channel; [reflexivity|assumption|].
    eapply Forall_impl; [exact Hmono|]. unfold getNumChannels. intros; simpl in *; lia.
Qed.

(** C2, as the code has it.  Analysis plans the bus compressor
    (threshold and ratio from the settings, attack 10 ms, release 100 ms,
    default knee and make-up gain), but [process] runs no compressor: the
    returned buffer does not depend on the compressor configuration or
    object, and each returned sample is the raw sum of the tracks'
    contributions. *)
Theorem bus_compressor_planned_not_run m tracks :
  tracks <> [] ->
  Forall wf_buffer tracks ->
  mixBusCompressor (analyzeTracks m tracks) =
    {| threshold := mixBusCompThreshold (settings_ m);
       ratio := mixBusCompRatio (settings_ m);
       attack := flit 10; release := flit 100;
       knee := flit 2; makeupGain := flit 0 |} /\
  (forall thr rat c,
     process (with_bus_compressor m thr rat c) tracks = process m tracks) /\
  (forall ch n, ch < 2 -> n < maxSamples tracks ->
     sample (process m tracks) ch n =
     Some (bus_sum (flit 0) tracks (trackGains (analyzeTracks m tracks)) ch n)).
Proof.
  intros Hne Hwf. split; [|split].
  - reflexivity.
  - intros thr rat c. now apply process_settings.
  - intros ch n Hch Hn. now apply sample_process.
Qed.
End RenderClaims.

(** ** Equalizer: state threading *)

Section EqualizerFacts.
Context `{FloatOps F}.
Implicit Types (e : Equalizer F) (c : BiquadCoeffs F) (st : BiquadState F).
Implicit Types (data xs ys : list F).

Lemma biquad_run_app c st xs ys :
  biquad_run c st (xs ++ ys) =
  let '(st1, out1) := biquad_run c st xs in
  let '(st2, out2) := biquad_run c st1 ys in
  (st2, out1 ++ out2).
Proof.
  revert st; induction xs as [|x xs IH]; intros st; simpl.
  - now destruct (biquad_run c st ys).
  - rewrite IH.
    destruct (biquad_run c _ xs) as [st1 out1].
    now destruct (biquad_run c st1 ys).
Qed.

Lemma biquad_run_nil c st : biquad_run c st [] = (st, []).
Proof. reflexivity. Qed.

Lemma cascade_length cs sts data :
  length (cascade cs sts data).1 = length sts.
Proof.
  revert sts data; induction cs as [|c cs IH]; intros [|st sts] data; simpl; auto.
  destruct (biquad_run c st data) as [st' out].
  specialize (IH sts out). destruct (cascade cs sts out); simpl in *. now rewrite IH.
Qed.

Lemma cascade_nil cs sts : cascade cs sts [] = (sts, []).
Proof.
  revert sts; induction cs as [|c cs IH]; intros [|st sts]; simpl; auto.
  now rewrite IH.
Qed.

Lemma cascade_app cs sts xs ys :
  cascade cs sts (xs ++ ys) =
  let '(sts1, out1) := cascade cs sts xs in
  let '(sts2, out2) := cascade cs sts1 ys in
  (sts2, out1 ++ out2).
Proof.
  revert sts xs ys; induction cs as [|c cs IH]; intros [|st sts] xs ys; simpl;
    try reflexivity.
  rewrite biquad_run_app.
  destruct (biquad_run c st xs) as [st1 o1].
  destruct (cascade cs sts o1) as [sts1 p1] eqn:Hc1; simpl.
  destruct (biquad_run c st1 ys) as [st2 o2].
  rewrite IH, Hc1.
  now destruct (cascade cs sts1 o2).
Qed.

(** The index loop over [seq] visits the sections in the order of the
    vectors. *)
Lemma foldl_process_band cs sts cpre spre data :
  length cpre = length spre -> length cs = length sts ->
  foldl (process_band (cpre ++ cs)) (spre ++ sts, data)
        (seq (length cpre) (length cs)) =
  let '(sts', out) := cascade cs sts data in (spre ++ sts', out).
Proof.
  revert sts cpre spre data; induction cs as [|c cs IH];
    intros [|st sts] cpre spre data Hpre Hlen; simpl in *; try discriminate.
  - reflexivity.
  - rewrite list_lookup_middle by reflexivity.
    rewrite list_lookup_middle by exact Hpre.
    destruct (biquad_run c st data) as [st' out].
    rewrite insert_app_r_alt by lia.
    replace (length cpre - length spre) with 0 by lia. simpl.
    replace (cpre ++ c :: cs) with ((cpre ++ [c]) ++ cs)
      by now rewrite <- app_assoc.
    replace (spre ++ st' :: sts) with ((spre ++ [st']) ++ sts)
      by now rewrite <- app_assoc.
    replace (S (length cpre)) with (length (cpre ++ [c]))
      by (rewrite length_app; simpl; lia).
    rewrite IH by (rewrite ?length_app; simpl; lia).
    destruct (cascade cs sts out) as [sts' out'].
    now rewrite <- app_assoc.
Qed.

Lemma process_as_cascade e data :
  wf_equalizer e ->
  Equalizer_process e data =
  let '(sts, out) := cascade (coeffs_ e) (states_ e) data in
  ({| bands_ := bands_ e; coeffs_ := coeffs_ e; states_ := sts |}, out).
Proof.
  intros [Hc Hs]. unfold Equalizer_process.
  pose proof (foldl_process_band (coeffs_ e) (states_ e) [] [] data) as Hf.
  simpl in Hf. rewrite <- Hc, Hf by (reflexivity || lia).
  now destruct (cascade (coeffs_ e) (states_ e) data).
Qed.

Lemma wf_Equalizer_new : wf_equalizer (Equalizer_new (F:=F)).
Proof. split; reflexivity. Qed.

Lemma wf_Equalizer_process e data :
  wf_equalizer e -> wf_equalizer (Equalizer_process e data).1.
Proof.
  intros Hwf. rewrite process_as_cascade by assumption.
  pose proof (cascade_length (coeffs_ e) (states_ e) data) as Hl.
  destruct (cascade (coeffs_ e) (states_ e) data) as [sts out]; simpl in *.
  destruct Hwf as [Hc Hs]. split; simpl; congruence.
Qed.

Lemma Equalizer_process_nil e :
  wf_equalizer e -> Equalizer_process e [] = (e, []).
Proof.
  intros Hwf. rewrite process_as_cascade, cascade_nil by assumption.
  now destruct e.
Qed.

(** Two consecutive calls do what one call on the joined block does. *)
Lemma Equalizer_process_app e xs ys :
  wf_equalizer e ->
  Equalizer_process e (xs ++ ys) =
  let '(e1, out1) := Equalizer_process e xs in
  let '(e2, out2) := Equalizer_process e1 ys in
  (e2, out1 ++ out2).
Proof.
  intros Hwf.
  pose proof (wf_Equalizer_process e xs Hwf) as Hwf1.
  rewrite (process_as_cascade e (xs ++ ys)), cascade_app by assumption.
  rewrite (process_as_cascade e xs) in * by assumption.
  destruct (cascade (coeffs_ e) (states_ e) xs) as [sts1 out1]; simpl in *.
  rewrite process_as_cascade by assumption. simpl.
  now destruct (cascade (coeffs_ e) sts1 ys).
Qed.

(** C7.  Handing a block to [Equalizer::process] in contiguous pieces, one
    call after the other, leaves the equalizer in the same state and
    produces the same samples as one call on the whole block, whatever the
    arithmetic. *)
Theorem process_chunks_whole e chunks :
  wf_equalizer e ->
  process_chunks e chunks = Equalizer_process e (concat chunks).
Proof.
  revert e; induction chunks as [|chunk chunks IH]; intros e Hwf; simpl.
  - now rewrite Equalizer_process_nil.
  - rewrite Equalizer_process_app by assumption.
    pose proof (wf_Equalizer_process e chunk Hwf) as Hwf1.
    destruct (Equalizer_process e chunk) as [e1 out1]; simpl in *.
    now rewrite IH.
Qed.

(** *** [setBand] *)

Lemma foldl_update_coeffs (bands : list (EQBand F)) cs sr k :
  k <= length bands -> length cs = length bands ->
  foldl (fun acc i =>
           match bands !! i with
           | Some band => <[i := calculateCoeffs band sr]> acc
           | None => acc
           end) cs (seq 0 k)
  = map (fun band => calculateCoeffs band sr) (take k bands) ++ drop k cs.
Proof.
  intros Hk Hlen. induction k as [|k IH].
  - simpl. now rewrite drop_0.
  - rewrite seq_S, foldl_app, IH by lia. simpl.
    destruct (lookup_lt_is_Some_2 bands k) as [band Hb]; [lia|].
    destruct (lookup_lt_is_Some_2 cs k) as [c Hc]; [lia|].
    rewrite Hb, (take_S_r _ _ _ Hb), (drop_S _ _ _ Hc).
    rewrite insert_app_r_alt by (rewrite length_map, length_take; lia).
    rewrite length_map, length_take.
    replace (k - k `min` length bands) with 0 by lia. simpl.
    rewrite map_app. simpl. now rewrite <- app_assoc.
Qed.

Lemma updateCoefficients_coeffs e sr :
  length (coeffs_ e) = length (bands_ e) ->
  coeffs_ (updateCoefficients e sr) =
  map (fun band => calculateCoeffs band sr) (bands_ e).
Proof.
  intros Hlen. unfold updateCoefficients; simpl.
  rewrite foldl_update_coeffs by (lia || assumption).
  rewrite firstn_all, drop_ge by lia. apply app_nil_r.
Qed.

Lemma setBand_bands e index band :
  bands_ (setBand e index band) =
  <[index := band]>
    (if decide (length (bands_ e) <= index)
     then resize (index + 1) EQBand_default (bands_ e) else bands_ e).
Proof. unfold setBand. now case_decide. Qed.

Lemma setBand_states e index band :
  states_ (setBand e index band) =
  if decide (length (bands_ e) <= index)
  then resize (index + 1) BiquadState_zero (states_ e) else states_ e.
Proof. unfold setBand. now case_decide. Qed.

Lemma setBand_length e index band :
  length (bands_ (setBand e index band)) = Nat.max (length (bands_ e)) (index + 1).
Proof.
  rewrite setBand_bands, length_insert.
  case_decide; [rewrite length_resize|]; lia.
Qed.

Lemma setBand_coeffs e index band :
  wf_equalizer e ->
  coeffs_ (setBand e index band) =
  map (fun b => calculateCoeffs b (flit 48000)) (bands_ (setBand e index band)).
Proof.
  intros [Hc Hs]. rewrite setBand_bands. unfold setBand.
  rewrite updateCoefficients_coeffs.
  - now case_decide.
  - simpl. rewrite length_insert. case_decide; simpl; rewrite ?length_resize; lia.
Qed.

Lemma wf_setBand e index band :
  wf_equalizer e -> wf_equalizer (setBand e index band).
Proof.
  intros Hwf. split.
  - rewrite setBand_coeffs by assumption. apply length_map.
  - rewrite setBand_states, setBand_length. destruct Hwf as [Hc Hs].
    case_decide; rewrite ?length_resize; lia.
Qed.

(** Every equalizer a caller can build keeps its three vectors in step. *)
Lemma configured_wf e : configured e -> wf_equalizer e.
Proof.
  induction 1 as [|e index band _ IH|e _ _|e data _ IH].
  - apply wf_Equalizer_new.
  - now apply wf_setBand.
  - apply wf_Equalizer_new.
  - now apply wf_Equalizer_process.
Qed.

Lemma setBand_bands_lookup e index band :
  bands_ (setBand e index band) !! index = Some band.
Proof.
  rewrite setBand_bands. apply list_lookup_insert_eq.
  case_decide; rewrite ?length_resize; lia.
Qed.

(** C6, as the code has it.  [setBand(i, b)] grows the three vectors to
    [i + 1] entries when they are shorter, stores the band and recomputes
    every coefficient set.  It writes no state: every section that existed
    before the call, section [i] included, keeps its [x1 x2 y1 y2]; only
    sections created by the resize start at zero. *)
Theorem setBand_keeps_states e index band :
  wf_equalizer e ->
  length (bands_ (setBand e index band)) = Nat.max (length (bands_ e)) (index + 1) /\
  wf_equalizer (setBand e index band) /\
  bands_ (setBand e index band) !! index = Some band /\
  coeffs_ (setBand e index band) =
    map (fun b => calculateCoeffs b (flit 48000)) (bands_ (setBand e index band)) /\
  (forall j, j < length (states_ e) ->
     states_ (setBand e index band) !! j = states_ e !! j) /\
  (forall j, length (states_ e) <= j -> j <= index ->
     states_ (setBand e index band) !! j = Some BiquadState_zero).
Proof.
  intros Hwf.
  split; [apply setBand_length|].
  split; [now apply wf_setBand|].
  split; [apply setBand_bands_lookup|].
  split; [now apply setBand_coeffs|].
  destruct Hwf as [Hc Hs]. split.
  - intros j Hj. rewrite setBand_states. case_decide; [|reflexivity].
    apply lookup_resize; lia.
  - intros j Hj Hji. rewrite setBand_states. rewrite decide_True by lia.
    apply lookup_resize_new; lia.
Qed.

(** C8, as the code has it.  [setBand] checks nothing and has no error
    result: whatever [q] and [frequency] are, the band is stored at its
    index and [calculateCoeffs] turns it into the coefficients of that
    section. *)
Theorem setBand_accepts_every_band e index band :
  wf_equalizer e ->
  getBands (setBand e index band) !! index = Some band /\
  coeffs_ (setBand e index band) !! index =
    Some (calculateCoeffs band (flit 48000)).
Proof.
  intros Hwf. split; [apply setBand_bands_lookup|].
  rewrite setBand_coeffs by assumption.
  change (map ?f ?l) with (f <$> l).
  now rewrite list_lookup_fmap, setBand_bands_lookup.
Qed.
End EqualizerFacts.

(** ** Analysis: loudness and the guarded divisions *)

Section AnalysisFacts.
Context `{FloatOps F}.
Implicit Types (m : AutoMixer F) (tracks : list (AudioBuffer F)) (b : AudioBuffer F).

Lemma accumulate_plane (plane : list F) sum total :
  foldl (fun '(sum, totalSamples) x => ((sum + x * x)%fl, S totalSamples))
        (sum, total) plane
  = (foldl (fun sum x => (sum + x * x)%fl) sum plane, total + length plane).
Proof.
  revert sum total; induction plane as [|x plane IH]; intros sum total; simpl.
  - f_equal. lia.
  - rewrite IH. f_equal. lia.
Qed.

Lemma accumulate_planes (planes : list (list F)) sum total :
  foldl (fun acc plane =>
           foldl (fun '(sum, totalSamples) x => ((sum + x * x)%fl, S totalSamples))
                 acc plane)
        (sum, total) planes
  = (foldl (fun sum x => (sum + x * x)%fl) sum (concat planes),
     total + length (concat planes)).
Proof.
  revert sum total; induction planes as [|plane planes IH]; intros sum total; simpl.
  - f_equal. lia.
  - rewrite accumulate_plane, IH, foldl_app, length_app. f_equal. lia.
Qed.

Lemma lufs_accumulate_spec b :
  lufs_accumulate b = (sum_squares (concat (data_ b)), length (concat (data_ b))).
Proof. unfold lufs_accumulate. now rewrite accumulate_planes. Qed.

Lemma length_concat_planes (planes : list (list F)) n :
  Forall (fun plane => length plane = n) planes ->
  length (concat planes) = length planes * n.
Proof.
  induction 1 as [|plane planes Hp _ IH]; simpl; [reflexivity|].
  rewrite length_app, IH, Hp. lia.
Qed.

(** [totalSamples] ends at [channels * samples]. *)
Lemma totalSamples_spec b :
  wf_buffer b -> (lufs_accumulate b).2 = channels_ b * samples_ b.
Proof.
  intros [Hc Hs]. rewrite lufs_accumulate_spec; simpl.
  now rewrite (length_concat_planes _ _ Hs), Hc.
Qed.

Lemma measureLUFS_spec b :
  wf_buffer b ->
  measureLUFS b = lufs_of (sum_squares (concat (data_ b))) (channels_ b * samples_ b).
Proof.
  intros Hwf. unfold measureLUFS.
  pose proof (totalSamples_spec b Hwf) as Ht.
  rewrite lufs_accumulate_spec in *. simpl in Ht. now rewrite Ht.
Qed.

Lemma measureLUFS_checked_Done i b :
  wf_buffer b -> channels_ b * samples_ b <> 0 ->
  measureLUFS_checked i b = Done (measureLUFS b).
Proof.
  intros Hwf Hne. unfold measureLUFS_checked, measureLUFS.
  pose proof (totalSamples_spec b Hwf) as Ht.
  destruct (lufs_accumulate b) as [sum total]; simpl in Ht.
  rewrite decide_False by lia. reflexivity.
Qed.

Lemma measureLUFS_checked_Fault i b :
  wf_buffer b -> channels_ b * samples_ b = 0 ->
  measureLUFS_checked i b = Fault (MeanSquareByZero i).
Proof.
  intros Hwf Hz. unfold measureLUFS_checked.
  pose proof (totalSamples_spec b Hwf) as Ht.
  destruct (lufs_accumulate b) as [sum total]; simpl in Ht.
  rewrite decide_True by lia. reflexivity.
Qed.

Lemma measure_all_checked_Done i tracks :
  Forall (fun b => wf_buffer b /\ channels_ b * samples_ b <> 0) tracks ->
  measure_all_checked i tracks = Done (map measureLUFS tracks).
Proof.
  intros Hall; revert i; induction Hall as [|b tracks [Hwf Hne] _ IH]; intros i; simpl.
  - reflexivity.
  - rewrite measureLUFS_checked_Done by assumption. simpl.
    now rewrite IH.
Qed.

(** One track without channels or without samples is enough for the mean
    square to divide by zero. *)
Lemma measure_all_checked_Fault i tracks :
  Forall wf_buffer tracks ->
  Exists (fun b => channels_ b * samples_ b = 0) tracks ->
  exists j, measure_all_checked i tracks = Fault (MeanSquareByZero j).
Proof.
  intros Hwf; revert i; induction Hwf as [|b tracks Hb _ IH]; intros i Hex.
  - inversion Hex.
  - simpl. destruct (decide (channels_ b * samples_ b = 0)) as [Hz|Hnz].
    + exists i. now rewrite measureLUFS_checked_Fault.
    + rewrite measureLUFS_checked_Done by assumption. simpl.
      inversion Hex as [? ? Hhead|? ? Htail]; subst; [contradiction|].
      destruct (IH (S i) Htail) as [j Hj]. exists j. now rewrite Hj.
Qed.

Lemma analyzeTracks_checked_Fault m tracks :
  Forall wf_buffer tracks ->
  Exists (fun b => channels_ b * samples_ b = 0) tracks ->
  exists j, analyzeTracks_checked m tracks = Fault (MeanSquareByZero j).
Proof.
  intros Hwf Hex. destruct (measure_all_checked_Fault 0 tracks Hwf Hex) as [j Hj].
  exists j. unfold analyzeTracks_checked, calculateOptimalLevels_checked.
  now rewrite Hj.
Qed.

Lemma size_sub_1_nonzero n :
  n <> 1 -> (Z.of_nat n < 2 ^ 64)%Z -> size_sub n 1 <> 0%Z.
Proof.
  intros Hn Hlt. unfold size_sub.
  destruct (decide (n = 0)) as [->|Hn0].
  - simpl. discriminate.
  - rewrite Z.mod_small by lia. lia.
Qed.

Lemma measure_all_checked_inv i tracks ls :
  measure_all_checked i tracks = Done ls -> ls = map measureLUFS tracks.
Proof.
  revert i ls; induction tracks as [|b tracks IH]; intros i ls; simpl.
  - now intros [= <-].
  - unfold measureLUFS_checked, measureLUFS.
    destruct (lufs_accumulate b) as [sum total].
    case_decide; simpl; [discriminate|].
    destruct (measure_all_checked (S i) tracks) as [ls'|f] eqn:Hrest; simpl;
      [|discriminate].
    intros [= <-]. f_equal. now apply (IH (S i)).
Qed.

(** Guarding changes nothing but the divisions: a run without fault returns
    the parameters [analyzeTracks] computes. *)
Lemma analyzeTracks_checked_inv m tracks p :
  analyzeTracks_checked m tracks = Done p -> p = analyzeTracks m tracks.
Proof.
  unfold analyzeTracks_checked, calculateOptimalLevels_checked.
  destruct (measure_all_checked 0 tracks) as [ls|f] eqn:Hls; simpl; [|discriminate].
  apply measure_all_checked_inv in Hls. subst ls.
  case_decide; simpl; [discriminate|].
  unfold analyzeTracks, calculatePanPositions_checked, calculatePanPositions.
  destruct (enableSpatialProcessing (settings_ m)); simpl.
  - case_decide; simpl; [now intros [= <-]|].
    case_decide; simpl; [discriminate|]. now intros [= <-].
  - now intros [= <-].
Qed.

(** Away from empty inputs no divisor is zero: when the track list is not
    empty and every track has at least one channel and one sample, the
    guarded analysis reports no fault and returns exactly the parameters
    [analyzeTracks] computes.  (A vector holds fewer than [2^64] tracks.) *)
Theorem analysis_divisors_nonzero m tracks :
  tracks <> [] ->
  (Z.of_nat (length tracks) < 2 ^ 64)%Z ->
  Forall (fun b => wf_buffer b /\ getNumChannels b * getNumSamples b <> 0) tracks ->
  analyzeTracks_checked m tracks = Done (analyzeTracks m tracks).
Proof.
  intros Hne Hsize Hall. unfold analyzeTracks_checked, calculateOptimalLevels_checked.
  unfold getNumChannels, getNumSamples in Hall. unfold analyzeTracks at 2.
  rewrite measure_all_checked_Done by assumption. simpl.
  rewrite decide_False by (rewrite length_map; destruct tracks; simpl; congruence).
  simpl. unfold calculatePanPositions_checked, calculatePanPositions.
  destruct (enableSpatialProcessing (settings_ m)); simpl; [|reflexivity].
  destruct (decide (length tracks = 1)) as [H1|H1]; simpl; [reflexivity|].
  rewrite decide_False by now apply size_sub_1_nonzero.
  reflexivity.
Qed.
End AnalysisFacts.

(** ** The planned level gain *)

Section LevelGain.
Context `{FloatOps F}.
Implicit Types (m : AutoMixer F) (tracks : list (AudioBuffer F)).

(** C3, as the code has it.  For a track with at least one channel and one
    sample the planned gain is [10^(max(target - L_i, -max_reduction)/20)]
    with [L_i = -0.691 + 10 log10(ms_i + 1e-10)]: [1e-10] is added to the
    mean square, it is not a floor.  Every operation is the code's float
    operation, so [ms_i] is the running float sum of [x * x], taken plane
    by plane and sample by sample from [0.0f], divided by
    [channels * samples]; whatever rounding that sum carries, the gain
    carries too.  Nothing is said of a track with no channel or no sample,
    whose mean square divides by zero. *)
Theorem level_gain_formula m tracks (i : nat) (track : AudioBuffer F) :
  Forall wf_buffer tracks ->
  tracks !! i = Some track ->
  getNumChannels track * getNumSamples track <> 0 ->
  trackGains (analyzeTracks m tracks) !! i =
  Some (fpow (flit 10)
          (fmax (targetLUFS (settings_ m)
                 - (flit (-691 # 1000)
                    + flit 10
                      * flog10 (sum_squares (concat (data_ track))
                                / of_size (Z.of_nat (getNumChannels track
                                                     * getNumSamples track))
                                + flit (1 # 10000000000))))
                (- maxGainReduction (settings_ m)) / flit 20))%fl.
Proof.
  intros Hwf Hi _. cbn [trackGains analyzeTracks]. unfold calculateOptimalLevels.
  rewrite !list_lookup_fmap, Hi. cbn [fmap option_fmap option_map].
  rewrite measureLUFS_spec by exact (Forall_lookup_1 _ _ _ _ Hwf Hi).
  reflexivity.
Qed.
End LevelGain.

(** ** Exact arithmetic: the formulas *)

Section RealFacts.
Local Open Scope R_scope.

Lemma fmax_Rmax (a b : R) : fmax a b = Rmax a b.
Proof.
  unfold fmax, Rmax; cbn; unfold R_ltb.
  destruct (Rlt_dec a b), (Rle_dec a b); lra.
Qed.

Lemma fgtb_true (a b : R) : fgtb a b = true <-> b < a.
Proof. unfold fgtb; cbn; unfold R_ltb. destruct (Rlt_dec b a); split; auto; discriminate. Qed.

Lemma fgtb_false (a b : R) : fgtb a b = false <-> a <= b.
Proof.
  unfold fgtb; cbn; unfold R_ltb.
  destruct (Rlt_dec b a); split; intros; try discriminate; lra.
Qed.

Lemma ln10_pos : 0 < ln 10.
Proof. rewrite <- ln_1. apply ln_increasing; lra. Qed.

Lemma R_log10_lt x y : 0 < x -> x < y -> R_log10 x < R_log10 y.
Proof.
  intros Hx Hxy. unfold R_log10.
  apply Rmult_lt_compat_r; [apply Rinv_0_lt_compat, ln10_pos|].
  now apply ln_increasing.
Qed.

Lemma R_log10_1 : R_log10 1 = 0.
Proof. unfold R_log10. rewrite ln_1. lra. Qed.

Lemma R_log10_tenth : R_log10 (/ 10) = -1.
Proof.
  unfold R_log10. rewrite ln_Rinv by lra.
  pose proof ln10_pos. field. lra.
Qed.

Lemma Rpower10_lt x y : x < y -> Rpower 10 x < Rpower 10 y.
Proof. apply Rpower_lt; lra. Qed.

Lemma Rpower10_inj x y : Rpower 10 x = Rpower 10 y -> x = y.
Proof.
  intros Heq. destruct (Rtotal_order x y) as [Hlt|[Heq'|Hgt]]; [|assumption|].
  - apply Rpower10_lt in Hlt. lra.
  - apply Rpower10_lt in Hgt. lra.
Qed.

Lemma Rpower10_pos x : 0 < Rpower 10 x.
Proof. unfold Rpower. apply exp_pos. Qed.

(** The two comparisons of [computeGain] select the three pieces of the
    curve; at [level = T + W/2] the knee expression has [t = 1]. *)
Lemma computeGain_curve (c : Compressor R) (env : R) :
  0 <= knee (csettings_ c) ->
  ratio (csettings_ c) <> 0 ->
  computeGain c env =
  soft_knee_gain (threshold (csettings_ c)) (knee (csettings_ c))
                 (ratio (csettings_ c)) (makeupGain (csettings_ c)) env.
Proof.
  intros Hknee Hratio. unfold computeGain, soft_knee_gain, soft_knee_gr.
  rewrite fmax_Rmax.
  set (s := csettings_ c) in *.
  replace (flit (1 # 10000000000)) with (1 / 10000000000) by (cbn; q2r; lra).
  replace (fmul (flit 20) (flog10 (Rmax env (1 / 10000000000))))
    with (20 * R_log10 (Rmax env (1 / 10000000000))) by (cbn; q2r; lra).
  set (level := 20 * R_log10 (Rmax env (1 / 10000000000))).
  replace (fadd (threshold s) (fdiv (knee s) (flit 2)))
    with (threshold s + knee s / 2) by (cbn; q2r; lra).
  replace (fsub (threshold s) (fdiv (knee s) (flit 2)))
    with (threshold s - knee s / 2) by (cbn; q2r; lra).
  f_equal; [cbn; q2r; lra|].
  destruct (fgtb level (threshold s + knee s / 2)) eqn:Hend.
  - apply fgtb_true in Hend.
    destruct (Rle_dec level (threshold s - knee s / 2)); [lra|].
    destruct (Rle_dec (threshold s + knee s / 2) level); [|lra].
    cbn; q2r. reflexivity.
  - apply fgtb_false in Hend.
    destruct (fgtb level (threshold s - knee s / 2)) eqn:Hstart.
    + apply fgtb_true in Hstart.
      destruct (Rle_dec level (threshold s - knee s / 2)); [lra|].
      destruct (Rle_dec (threshold s + knee s / 2) level) as [Heq|Hlt].
      * assert (Hl : level = threshold s + knee s / 2) by lra.
        assert (Hw : knee s <> 0) by lra.
        cbn; q2r. rewrite Hl. field. split; assumption.
      * cbn; q2r. f_equal. f_equal. f_equal. ring.
    + apply fgtb_false in Hstart.
      destruct (Rle_dec level (threshold s - knee s / 2)); [|lra].
      cbn; q2r. reflexivity.
Qed.

(** C5.  Under exact arithmetic, for a ratio of at least 1 and a knee width
    of at least 0, [computeGain] is the soft-knee curve: no reduction at or
    below [T - W/2], [(level - T)(1 - 1/R)] at or above [T + W/2], that
    value times [t^2] in between, turned into the linear gain
    [10^((-gr + makeup)/20)]. *)
Theorem computeGain_soft_knee (c : Compressor R) (env : R) :
  1 <= ratio (csettings_ c) ->
  0 <= knee (csettings_ c) ->
  computeGain c env =
  soft_knee_gain (threshold (csettings_ c)) (knee (csettings_ c))
                 (ratio (csettings_ c)) (makeupGain (csettings_ c)) env.
Proof.
  intros Hratio Hknee. apply computeGain_curve; [assumption|lra].
Qed.

(** *** Bin and frequency *)

Lemma R_trunc_nonneg x : 0 <= x -> R_trunc x = Zfloor x.
Proof. intros Hx. unfold R_trunc. destruct (Rlt_dec x 0); [lra|reflexivity]. Qed.



(** *** Loudness and level gains *)

Lemma sum_squares_R (xs : list R) :
  sum_squares xs = fold_right Rplus 0 (map (fun x => x * x) xs).
Proof.
  unfold sum_squares.
  assert (Hgen : forall acc,
    foldl (fun sum x => fadd sum (fmul x x)) acc xs
    = acc + fold_right Rplus 0 (map (fun x => x * x) xs)).
  { induction xs as [|x xs IH]; intros acc; simpl.
    - lra.
    - rewrite IH. cbn. lra. }
  rewrite Hgen. cbn. q2r. lra.
Qed.

(** The code adds [1e-10] to the mean square before the logarithm. *)
Lemma measureLUFS_offset (b : AudioBuffer R) :
  wf_buffer b -> measureLUFS b = lufs_offset b.
Proof.
  intros Hwf. rewrite measureLUFS_spec by assumption.
  unfold lufs_of, lufs_offset, mean_square. rewrite sum_squares_R.
  rewrite INR_IZR_INZ. cbn. q2r. f_equal; lra.
Qed.

Lemma level_gain_R (s : AutoMixerSettings R) (L : R) :
  level_gain s L = clamped_gain (targetLUFS s) (maxGainReduction s) L.
Proof.
  unfold level_gain, clamped_gain. rewrite fmax_Rmax. cbn. q2r. reflexivity.
Qed.

Lemma trackGains_lookup_R (m : AutoMixer R) (tracks : list (AudioBuffer R)) i track :
  Forall wf_buffer tracks -> tracks !! i = Some track ->
  trackGains (analyzeTracks m tracks) !! i =
  Some (clamped_gain (targetLUFS (settings_ m)) (maxGainReduction (settings_ m))
                     (lufs_offset track)).
Proof.
  intros Hwf Hi. cbn [trackGains analyzeTracks]. unfold calculateOptimalLevels.
  rewrite !list_lookup_fmap, Hi. cbn [fmap option_fmap option_map].
  rewrite level_gain_R, measureLUFS_offset; [reflexivity|].
  exact (Forall_lookup_1 _ _ _ _ Hwf Hi).
Qed.

(** C3 fails as stated: for one mono sample of [1e-5] the mean square is
    [1e-10]; the code takes the logarithm of [2e-10], the floor would give
    [1e-10], and the two gains differ (by about 3 dB). *)
Lemma quiet_track_gain_differs :
  let m := AutoMixer_new AutoMixerSettings_default in
  let track := mono_track [1 / 100000] in
  wf_buffer track /\
  mean_square track = 1 / 10000000000 /\
  trackGains (analyzeTracks m [track]) !! 0%nat
  <> Some (clamped_gain (-16) 12 (lufs_floored track)).
Proof.
  intros m track.
  assert (Hwf : wf_buffer track) by (split; [reflexivity|repeat constructor]).
  assert (Hms : mean_square track = 1 / 10000000000)
    by (unfold mean_square; simpl; lra).
  split; [exact Hwf|]. split; [exact Hms|].
  rewrite (trackGains_lookup_R m [track] 0 track) by (repeat constructor; assumption).
  unfold lufs_offset, lufs_floored. rewrite Hms.
  replace (targetLUFS (settings_ m)) with (-16) by (cbn; q2r; lra).
  replace (maxGainReduction (settings_ m)) with 12 by (cbn; q2r; lra).
  rewrite Rmax_left by lra.
  replace (1 / 10000000000 + 1 / 10000000000) with (2 / 10000000000) by lra.
  pose proof (R_log10_lt (1 / 10000000000) (2 / 10000000000)
                ltac:(lra) ltac:(lra)) as H12.
  pose proof (R_log10_lt (2 / 10000000000) (/ 10) ltac:(lra) ltac:(lra)) as H2.
  rewrite R_log10_tenth in H2.
  unfold clamped_gain. rewrite !Rmax_left by lra.
  intros Heq. injection Heq as Heq. apply Rpower10_inj in Heq. lra.
Qed.

(** *** The bus compressor, had it run *)

Lemma clamped_gain_lower T M L : 0 <= M <= 20 -> / 10 <= clamped_gain T M L.
Proof.
  intros HM. unfold clamped_gain.
  replace (/ 10) with (Rpower 10 (Ropp 1)) by (rewrite Rpower_Ropp, Rpower_1; lra).
  apply Rle_Rpower; [lra|].
  pose proof (Rmax_r (T - L) (- M)). lra.
Qed.

(** Attack coefficient for 10 ms at 48 kHz. *)
Lemma attack_bound : exp (- / 480) <= 480 / 481.
Proof.
  rewrite exp_Ropp.
  pose proof (exp_ineq1_le (/ 480)) as Hexp.
  replace (480 / 481) with (/ (1 + / 480)) by (field; lra).
  apply Rinv_le_contravar; lra.
Qed.

(** Configuring the mixer's own compressor object with a plan gives the
    compressor built from that plan. *)
Lemma setSettings_fresh (s0 s : CompressorSettings R) :
  setSettings (Compressor_new s0) s = Compressor_new s.
Proof. reflexivity. Qed.

(** C2 fails as stated: for one mono sample of 10000 the bus sum on the left
    is some [raw] of at least 1000 (the level gain being at least -12 dB) and
    [process] returns it as it is; the planned compressor, run on it, would
    see an envelope above 0 dB, well over the -6 dB threshold, and scale it
    down. *)
Lemma bus_not_compressed :
  let m := AutoMixer_new AutoMixerSettings_default in
  let tracks := [mono_track [10000]] in
  let plan := analyzeTracks m tracks in
  let bus := mix_tracks (settings_ m) (AudioBuffer_new 2 (maxSamples tracks))
                        tracks (trackGains plan) (trackEQs plan) in
  exists raw,
    data_ bus !! 0%nat = Some [raw] /\
    data_ (process m tracks) !! 0%nat = Some [raw] /\
    (Compressor_process (Compressor_new (mixBusCompressor plan)) [raw]).2 <> [raw].
Proof.
  intros m tracks plan bus.
  set (planned := mixBusCompressor plan).
  set (g := level_gain (settings_ m) (measureLUFS (mono_track [10000]))).
  set (raw := fadd (flit 0) (fmul (fmul 10000 g) (flit 1))).
  exists raw. split; [reflexivity|]. split; [reflexivity|].
  assert (Hg : / 10 <= g).
  { unfold g. rewrite level_gain_R. apply clamped_gain_lower. cbn; q2r; lra. }
  clearbody g.
  assert (Hraw : 1000 <= raw) by (unfold raw; cbn [fadd fmul flit R_ops]; q2r; lra).
  clearbody raw. clear g Hg.
  cbn [Compressor_process Compressor_step snd].
  change (envelope_ (Compressor_new planned)) with (Q2R 0).
  change (fabs raw) with (Rabs raw). rewrite (Rabs_pos_eq raw) by lra.
  replace (fgtb raw (Q2R 0)) with true
    by (symmetry; apply fgtb_true; q2r; lra).
  replace (attackCoeff_ (Compressor_new planned)) with (exp (- / 480))
    by (cbn; q2r; f_equal; lra).
  cbn [fadd fsub fmul R_ops].
  set (env := raw + (Q2R 0 - raw) * exp (- / 480)).
  assert (Henv : 2 <= env).
  { unfold env; q2r. pose proof attack_bound. nra. }
  clearbody env.
  rewrite computeGain_curve by (cbn; q2r; lra).
  unfold soft_knee_gain.
  replace (threshold (csettings_ (Compressor_new planned))) with (-6)
    by (cbn; q2r; lra).
  replace (knee (csettings_ (Compressor_new planned))) with 2 by (cbn; q2r; lra).
  replace (ratio (csettings_ (Compressor_new planned))) with 2 by (cbn; q2r; lra).
  replace (makeupGain (csettings_ (Compressor_new planned))) with 0
    by (cbn; q2r; lra).
  rewrite Rmax_left by lra.
  pose proof (R_log10_lt 1 env ltac:(lra) ltac:(lra)) as Hlog.
  rewrite R_log10_1 in Hlog.
  set (l := R_log10 env) in *. clearbody l.
  set (level := 20 * l).
  assert (Hlevel : 0 < level) by (unfold level; lra).
  clearbody level.
  unfold soft_knee_gr.
  destruct (Rle_dec level (-6 - 2 / 2)); [lra|].
  destruct (Rle_dec (-6 + 2 / 2) level); [|lra].
  assert (Hgain : Rpower 10 ((- ((level - -6) * (1 - 1 / 2)) + 0) / 20) < 1).
  { pose proof (Rpower10_lt ((- ((level - -6) * (1 - 1 / 2)) + 0) / 20) 0) as Hlt.
    rewrite Rpower_O in Hlt by lra. apply Hlt. lra. }
  intros Heq. injection Heq as Heq. nra.
Qed.

(** *** The pan law, had it been applied *)

Lemma sin_PI4_pos : 0 < sin (PI / 4).
Proof.
  rewrite sin_PI4. apply Rdiv_lt_0_compat; [lra|]. apply sqrt_lt_R0; lra.
Qed.

(** C1 fails as stated: a single mono unit impulse is planned at pan 0, so
    the right bus sample should be [x sin(pi/4)] for the non-zero sample [x]
    reaching the pan stage; the code leaves the right plane at 0. *)
Lemma pan_law_not_applied :
  let m := AutoMixer_new AutoMixerSettings_default in
  let tracks := [mono_track [1]] in
  enableSpatialProcessing (settings_ m) = true /\
  panPositions (analyzeTracks m tracks) = [0] /\
  sample (process m tracks) 1 0 = Some 0 /\
  forall x, x <> 0 ->
    sample (process m tracks) 1 0 <> Some (equal_power_pan 0 x).2.
Proof.
  intros m tracks.
  assert (Hright : sample (process m tracks) 1 0 = Some 0).
  { cbn. q2r. reflexivity. }
  split; [reflexivity|].
  split.
  { cbn [panPositions analyzeTracks]. unfold calculatePanPositions.
    simpl. q2r. reflexivity. }
  split; [exact Hright|].
  intros x Hx. rewrite Hright. unfold equal_power_pan; simpl.
  replace ((0 + 1) * PI / 4) with (PI / 4) by lra.
  pose proof sin_PI4_pos. intros Heq. injection Heq as Heq. nra.
Qed.

(** *** Equalizer: concrete bands *)

(** C6 fails as stated: after one input sample 1 the only section holds
    [x1 = 1]; a second [setBand(0, ...)] leaves it there. *)
Lemma setBand_does_not_reset :
  let e0 := setBand Equalizer_new 0 EQBand_default in
  let e1 := (Equalizer_process e0 [1]).1 in
  let e2 := setBand e1 0 EQBand_default in
  exists st,
    states_ e2 !! 0%nat = Some st /\ x1 st = 1 /\ st <> BiquadState_zero.
Proof.
  intros e0 e1 e2. eexists. split; [reflexivity|]. split; [reflexivity|].
  intros Heq. apply (f_equal x1) in Heq. cbn in Heq. q2r. lra.
Qed.

(** C8 fails as stated: a band with [q = 1e-4] and a frequency of 30 kHz
    (above half of 48 kHz) is stored and given coefficients. *)
Lemma setBand_stores_invalid_band :
  let bad := {| frequency := 30000; gain := 0; q := 1 / 10000; type := PEAK |} in
  q bad < 1 / 1000 /\
  ~ (0 < frequency bad < 48000 / 2) /\
  getBands (setBand Equalizer_new 0 bad) = [bad] /\
  coeffs_ (setBand Equalizer_new 0 bad) = [calculateCoeffs bad (flit 48000)].
Proof.
  intros bad. split; [simpl; lra|]. split; [simpl; lra|].
  split; reflexivity.
Qed.

(** *** Analysis on empty inputs *)

(** C10.  The analysis does divide by zero.  For the empty track list
    [lufsValues.size()] is 0 and the average is computed all the same; for a
    track of one channel and no samples the loops of [measureLUFS] leave
    [totalSamples] at 0 and the mean square is computed all the same.  The
    guarded analysis reports the fault in both cases. *)
Lemma analysis_divides_by_zero :
  length (map measureLUFS ([] : list (AudioBuffer R))) = 0%nat /\
  analyzeTracks_checked default_mixer [] = Fault AverageByZero /\
  wf_buffer (AudioBuffer_new (F:=R) 1 0) /\
  (lufs_accumulate (AudioBuffer_new (F:=R) 1 0)).2 = 0%nat /\
  analyzeTracks_checked default_mixer [AudioBuffer_new 1 0]
  = Fault (MeanSquareByZero 0).
Proof.
  split; [reflexivity|]. split; [reflexivity|].
  split; [apply wf_AudioBuffer_new|]. split; reflexivity.
Qed.
End RealFacts.

(** ** The theorems at concrete inputs *)

Section Instances.
Local Open Scope R_scope.

Lemma wf_mono_track (xs : list R) : wf_buffer (mono_track xs).
Proof. split; [reflexivity|]. repeat constructor. Qed.

(** Two mono tracks of lengths 2 and 1. *)
Lemma process_output_shape_witness :
  let tracks := [mono_track [1; 2]; mono_track [3]] in
  Forall wf_buffer tracks /\
  (process default_mixer [] = AudioBuffer_new 2 0 /\
   getNumChannels (process default_mixer tracks) = 2%nat /\
   getNumSamples (process default_mixer tracks) = max_list (map samples_ tracks) /\
   wf_buffer (process default_mixer tracks) /\
   (forall ch n, (ch < 2)%nat -> (n < max_list (map samples_ tracks))%nat ->
      sample (process default_mixer tracks) ch n =
      Some (bus_sum (flit 0) tracks (trackGains (analyzeTracks default_mixer tracks)) ch n)) /\
   (forall track g ch n, track ∈ tracks -> (getNumSamples track <= n)%nat ->
      contribution track g ch n = None)).
Proof.
  intros tracks.
  assert (Hwf : Forall wf_buffer tracks)
    by (repeat constructor; apply wf_mono_track).
  split; [exact Hwf|].
  exact (process_output_shape default_mixer tracks Hwf).
Defined.

(** One mono unit impulse, spatial processing on. *)
Lemma pan_planned_not_applied_witness :
  let tracks := [mono_track [1]] in
  (enableSpatialProcessing (settings_ default_mixer) = true /\
   tracks <> [] /\ Forall wf_buffer tracks) /\
  (panPositions (analyzeTracks default_mixer tracks) = calculatePanPositions tracks /\
   process default_mixer tracks = process (with_spatial default_mixer false) tracks /\
   (forall ch n, (ch < 2)%nat -> (n < maxSamples tracks)%nat ->
      sample (process default_mixer tracks) ch n =
      Some (bus_sum (flit 0) tracks (trackGains (analyzeTracks default_mixer tracks)) ch n)) /\
   (Forall (fun t => getNumChannels t = 1%nat) tracks ->
    forall n, (n < maxSamples tracks)%nat ->
      sample (process default_mixer tracks) 1 n = Some (flit 0))).
Proof.
  intros tracks.
  assert (Hflag : enableSpatialProcessing (settings_ default_mixer) = true) by reflexivity.
  assert (Hne : tracks <> []) by discriminate.
  assert (Hwf : Forall wf_buffer tracks)
    by (repeat constructor; apply wf_mono_track).
  split; [auto|].
  exact (pan_planned_not_applied default_mixer tracks Hflag Hne Hwf).
Defined.

(** One loud mono sample. *)
Lemma bus_compressor_planned_not_run_witness :
  let tracks := [mono_track [10000]] in
  (tracks <> [] /\ Forall wf_buffer tracks) /\
  (mixBusCompressor (analyzeTracks default_mixer tracks) =
     {| threshold := mixBusCompThreshold (settings_ default_mixer);
        ratio := mixBusCompRatio (settings_ default_mixer);
        attack := flit 10; release := flit 100;
        knee := flit 2; makeupGain := flit 0 |} /\
   (forall thr rat c,
      process (with_bus_compressor default_mixer thr rat c) tracks = process default_mixer tracks) /\
   (forall ch n, (ch < 2)%nat -> (n < maxSamples tracks)%nat ->
      sample (process default_mixer tracks) ch n =
      Some (bus_sum (flit 0) tracks (trackGains (analyzeTracks default_mixer tracks)) ch n))).
Proof.
  intros tracks.
  assert (Hne : tracks <> []) by discriminate.
  assert (Hwf : Forall wf_buffer tracks)
    by (repeat constructor; apply wf_mono_track).
  split; [auto|].
  exact (bus_compressor_planned_not_run default_mixer tracks Hne Hwf).
Defined.

(** One quiet mono sample. *)
Lemma level_gain_formula_witness :
  let track := mono_track [1 / 100000] in
  (Forall wf_buffer [track] /\ [track] !! 0%nat = Some track /\
   (getNumChannels track * getNumSamples track <> 0)%nat) /\
  trackGains (analyzeTracks default_mixer [track]) !! 0%nat =
  Some (fpow (flit 10)
          (fmax (targetLUFS (settings_ default_mixer)
                 - (flit (-691 # 1000)
                    + flit 10
                      * flog10 (sum_squares (concat (data_ track))
                                / of_size (Z.of_nat (getNumChannels track
                                                     * getNumSamples track))
                                + flit (1 # 10000000000))))
                (- maxGainReduction (settings_ default_mixer)) / flit 20))%fl.
Proof.
  intros track.
  assert (Hwf : Forall wf_buffer [track])
    by (repeat constructor; apply wf_mono_track).
  assert (Hi : [track] !! 0%nat = Some track) by reflexivity.
  assert (Hne : (getNumChannels track * getNumSamples track <> 0)%nat)
    by (simpl; lia).
  split; [auto|].
  exact (level_gain_formula default_mixer [track] 0 track Hwf Hi Hne).
Defined.

(** The default compressor (threshold -12 dB, ratio 4, knee 2 dB) at an
    envelope of one half. *)
Lemma computeGain_soft_knee_witness :
  let c := Compressor_new (F:=R) CompressorSettings_default in
  (1 <= ratio (csettings_ c) /\ 0 <= knee (csettings_ c)) /\
  computeGain c (1 / 2) =
  soft_knee_gain (threshold (csettings_ c)) (knee (csettings_ c))
                 (ratio (csettings_ c)) (makeupGain (csettings_ c)) (1 / 2).
Proof.
  intros c.
  assert (Hratio : 1 <= ratio (csettings_ c)) by (cbn; q2r; lra).
  assert (Hknee : 0 <= knee (csettings_ c)) by (cbn; q2r; lra).
  split; [auto|].
  exact (computeGain_soft_knee c (1 / 2) Hratio Hknee).
Defined.

(** An equalizer with one section that has processed the sample 1, so that
    the section holds [x1 = 1]: a band written over that section (index 0)
    and a band written past it (index 2). *)
Lemma setBand_keeps_states_witness :
  let e := (Equalizer_process (setBand (Equalizer_new (F:=R)) 0 EQBand_default) [1]).1 in
  let band := {| frequency := 2000; gain := 3; q := 1; type := PEAK |} in
  (wf_equalizer e /\ length (states_ e) = 1%nat /\
   x1 <$> states_ e !! 0%nat = Some 1) /\
  (length (bands_ (setBand e 0 band)) = Nat.max (length (bands_ e)) (0 + 1) /\
   wf_equalizer (setBand e 0 band) /\
   bands_ (setBand e 0 band) !! 0%nat = Some band /\
   coeffs_ (setBand e 0 band) =
     map (fun b => calculateCoeffs b (flit 48000)) (bands_ (setBand e 0 band)) /\
   (forall j, (j < length (states_ e))%nat ->
      states_ (setBand e 0 band) !! j = states_ e !! j) /\
   (forall j, (length (states_ e) <= j)%nat -> (j <= 0)%nat ->
      states_ (setBand e 0 band) !! j = Some BiquadState_zero)) /\
  (length (bands_ (setBand e 2 band)) = Nat.max (length (bands_ e)) (2 + 1) /\
   wf_equalizer (setBand e 2 band) /\
   bands_ (setBand e 2 band) !! 2%nat = Some band /\
   coeffs_ (setBand e 2 band) =
     map (fun b => calculateCoeffs b (flit 48000)) (bands_ (setBand e 2 band)) /\
   (forall j, (j < length (states_ e))%nat ->
      states_ (setBand e 2 band) !! j = states_ e !! j) /\
   (forall j, (length (states_ e) <= j)%nat -> (j <= 2)%nat ->
      states_ (setBand e 2 band) !! j = Some BiquadState_zero)).
Proof.
  intros e band.
  assert (Hwf : wf_equalizer e) by (split; reflexivity).
  assert (Hlen : length (states_ e) = 1%nat) by reflexivity.
  assert (Hx1 : x1 <$> states_ e !! 0%nat = Some 1) by reflexivity.
  split; [auto|].
  split; [exact (setBand_keeps_states e 0 band Hwf)
         |exact (setBand_keeps_states e 2 band Hwf)].
Defined.

(** One default band; a block of three samples cut after the second. *)
Lemma process_chunks_whole_witness :
  let e := setBand (Equalizer_new (F:=R)) 0 EQBand_default in
  wf_equalizer e /\
  process_chunks e [[1; 2]; [3]] = Equalizer_process e (concat [[1; 2]; [3]]).
Proof.
  intros e.
  assert (Hwf : wf_equalizer e) by (split; reflexivity).
  split; [exact Hwf|].
  exact (process_chunks_whole e [[1; 2]; [3]] Hwf).
Defined.

(** A band with a tiny [q] and a frequency above half the sample rate. *)
Lemma setBand_accepts_every_band_witness :
  let e := Equalizer_new (F:=R) in
  let bad := {| frequency := 30000; gain := 0; q := 1 / 10000; type := PEAK |} in
  wf_equalizer e /\
  (getBands (setBand e 0 bad) !! 0%nat = Some bad /\
   coeffs_ (setBand e 0 bad) !! 0%nat = Some (calculateCoeffs bad (flit 48000))).
Proof.
  intros e bad.
  assert (Hwf : wf_equalizer e) by (split; reflexivity).
  split; [exact Hwf|].
  exact (setBand_accepts_every_band e 0 bad Hwf).
Defined.


(** One mono track of one sample. *)
Lemma analysis_divisors_nonzero_witness :
  let tracks := [mono_track [1]] in
  (tracks <> [] /\
   (Z.of_nat (length tracks) < 2 ^ 64)%Z /\
   Forall (fun b => wf_buffer b /\ (getNumChannels b * getNumSamples b <> 0)%nat)
          tracks) /\
  analyzeTracks_checked default_mixer tracks = Done (analyzeTracks default_mixer tracks).
Proof.
  intros tracks.
  assert (Hne : tracks <> []) by discriminate.
  assert (Hsize : (Z.of_nat (length tracks) < 2 ^ 64)%Z) by reflexivity.
  assert (Hall : Forall (fun b => wf_buffer b
                          /\ (getNumChannels b * getNumSamples b <> 0)%nat) tracks).
  { repeat constructor. simpl. discriminate. }
  split; [auto|].
  exact (analysis_divisors_nonzero default_mixer tracks Hne Hsize Hall).
Defined.
End Instances.

(** * Further properties of the code *)

(** ** Buffers *)

Section BufferExtras.
Context `{FloatOps F}.
Implicit Types (b self other : AudioBuffer F).

Lemma update_prefix_id {A B} (f : A -> B -> A) n (dst : list A) (src : list B) :
  (forall d s, f d s = d) -> update_prefix f n dst src = dst.
Proof.
  intros Hf; revert dst src; induction n as [|n IH]; intros [|d dst] [|s src];
    simpl; try reflexivity.
  now rewrite Hf, IH.
Qed.

Lemma wf_clear b : wf_buffer b -> wf_buffer (clear b).
Proof.
  intros [Hc Hs]; split; simpl.
  - now rewrite length_map.
  - apply Forall_fmap. eapply Forall_impl; [exact Hs|].
    intros plane Hp; simpl. now rewrite length_map.
Qed.

(** X1. AudioBuffer::applyGain, clear and addFrom keep the shape of the
    buffer: on a buffer that holds channels_ planes of samples_ samples each,
    every one of them leaves a buffer that still does, with the same channel
    count and the same sample count, whatever the gain and whatever the shape
    of the other buffer.  Holds for any float arithmetic. *)
Theorem buffer_operations_keep_shape b other g :
  wf_buffer b ->
  (wf_buffer (applyGain b g) /\ wf_buffer (clear b) /\ wf_buffer (addFrom b other g)) /\
  (getNumChannels (applyGain b g) = getNumChannels b /\
   getNumChannels (clear b) = getNumChannels b /\
   getNumChannels (addFrom b other g) = getNumChannels b) /\
  (getNumSamples (applyGain b g) = getNumSamples b /\
   getNumSamples (clear b) = getNumSamples b /\
   getNumSamples (addFrom b other g) = getNumSamples b).
Proof.
  intros Hwf. split; [|split; repeat split].
  split; [now apply wf_applyGain|]. split; [now apply wf_clear|now apply wf_addFrom].
Qed.

(** X2. AudioBuffer::clear leaves the buffer equal to a newly constructed
    AudioBuffer(getNumChannels(), getNumSamples()): the shape is kept and
    every sample is 0.  Holds for any float arithmetic. *)
Theorem clear_gives_fresh_buffer b :
  wf_buffer b -> clear b = AudioBuffer_new (getNumChannels b) (getNumSamples b).
Proof.
  intros [Hc Hs]. unfold clear, AudioBuffer_new, getNumChannels, getNumSamples. f_equal.
  rewrite <- Hc. clear Hc.
  induction Hs as [|plane planes Hp _ IH]; simpl; [reflexivity|].
  f_equal; [|exact IH].
  rewrite <- Hp. clear. induction plane as [|x plane IH]; simpl; [reflexivity|].
  now rewrite IH.
Qed.

(** X3. AudioBuffer::addFrom(other, gain) writes only inside the overlap of
    the two buffers: the sample at plane ch, index n is left as it was
    whenever ch >= min(channels_, other.channels_) or n >= min(samples_,
    other.samples_).  Holds for any float arithmetic. *)
Theorem addFrom_touches_overlap_only self other g ch n :
  Nat.min (getNumChannels self) (getNumChannels other) <= ch \/
  Nat.min (getNumSamples self) (getNumSamples other) <= n ->
  sample (addFrom self other g) ch n = sample self ch n.
Proof.
  unfold getNumChannels, getNumSamples, sample; simpl. intros Hout.
  rewrite update_prefix_lookup.
  destruct (data_ self !! ch) as [d|]; [|reflexivity].
  destruct (data_ other !! ch) as [s|]; [|reflexivity].
  case_decide; [|reflexivity].
  rewrite update_prefix_lookup.
  destruct (d !! n) as [x|]; [|reflexivity].
  destruct (s !! n) as [y|]; [|reflexivity].
  case_decide; [lia|reflexivity].
Qed.

(** X4. AudioBuffer::addFrom from a buffer that has no channels or no samples
    changes nothing in the destination.  Holds for any float arithmetic. *)
Theorem addFrom_empty_source self other g :
  getNumChannels other = 0 \/ getNumSamples other = 0 ->
  addFrom self other g = self.
Proof.
  unfold getNumChannels, getNumSamples. intros Hempty.
  destruct self as [c n planes]; unfold addFrom; simpl. f_equal.
  destruct Hempty as [-> | ->].
  - now rewrite Nat.min_0_r.
  - rewrite Nat.min_0_r. now apply update_prefix_id.
Qed.
End BufferExtras.

(** ** Equalizer *)

Section EqualizerExtras.
Context `{FloatOps F}.
Implicit Types (e : Equalizer F) (c : BiquadCoeffs F) (st : BiquadState F).
Implicit Types (data xs ys : list F).

Lemma biquad_run_length c st data : length (biquad_run c st data).2 = length data.
Proof.
  revert st; induction data as [|x data IH]; intros st; simpl; [reflexivity|].
  specialize (IH (biquad_step c st x).1).
  destruct (biquad_run c _ data) as [st2 outs]. simpl in *. now rewrite IH.
Qed.

Lemma cascade_out_length cs sts data : length (cascade cs sts data).2 = length data.
Proof.
  revert sts data; induction cs as [|c cs IH]; intros [|st sts] data; simpl;
    try reflexivity.
  pose proof (biquad_run_length c st data) as Hrun.
  destruct (biquad_run c st data) as [st' out]; simpl in Hrun.
  specialize (IH sts out). destruct (cascade cs sts out); simpl in *. congruence.
Qed.

Lemma Equalizer_process_frame e data :
  wf_equalizer e ->
  length (Equalizer_process e data).2 = length data /\
  bands_ (Equalizer_process e data).1 = bands_ e /\
  coeffs_ (Equalizer_process e data).1 = coeffs_ e /\
  length (states_ (Equalizer_process e data).1) = length (states_ e).
Proof.
  intros Hwf. rewrite process_as_cascade by assumption.
  pose proof (cascade_out_length (coeffs_ e) (states_ e) data) as Hout.
  pose proof (cascade_length (coeffs_ e) (states_ e) data) as Hst.
  destruct (cascade (coeffs_ e) (states_ e) data) as [sts out]; simpl in *.
  auto.
Qed.

(** X5. Equalizer::process returns as many samples as it is given and changes
    only the section states: the bands, the coefficients and the number of
    sections are the same after the call, for every equalizer whose bands,
    coefficients and states have equal length.  Holds for any float
    arithmetic. *)
Theorem Equalizer_process_keeps_length e data :
  wf_equalizer e ->
  length (Equalizer_process e data).2 = length data /\
  getBands (Equalizer_process e data).1 = getBands e /\
  coeffs_ (Equalizer_process e data).1 = coeffs_ e /\
  length (states_ (Equalizer_process e data).1) = length (states_ e).
Proof. apply Equalizer_process_frame. Qed.

(** X6. Equalizer::setBand(index, band) leaves every other band that existed
    before the call as it was; the bands created by the resize below index are
    default-constructed EQBands (1000 Hz, 0 dB, Q 0.7, PEAK); and there is no
    band at or past max(old size, index + 1).  Holds for any float arithmetic.
    *)
Theorem setBand_other_bands e index band :
  (forall j, j <> index -> j < length (bands_ e) ->
     getBands (setBand e index band) !! j = getBands e !! j) /\
  (forall j, length (bands_ e) <= j -> j < index ->
     getBands (setBand e index band) !! j = Some EQBand_default) /\
  (forall j, Nat.max (length (bands_ e)) (index + 1) <= j ->
     getBands (setBand e index band) !! j = None).
Proof.
  unfold getBands. split; [|split].
  - intros j Hne Hj. rewrite setBand_bands, list_lookup_insert_ne by auto.
    case_decide; [|reflexivity]. apply lookup_resize; lia.
  - intros j Hj Hji. rewrite setBand_bands, list_lookup_insert_ne by lia.
    rewrite decide_True by lia. apply lookup_resize_new; lia.
  - intros j Hj. apply lookup_ge_None_2. rewrite setBand_length. exact Hj.
Qed.

Lemma setBand_eq e e' :
  bands_ e = bands_ e' -> coeffs_ e = coeffs_ e' -> states_ e = states_ e' -> e = e'.
Proof. destruct e, e'; simpl; congruence. Qed.

(** X7. Two Equalizer::setBand calls on the same index in a row leave the
    equalizer (bands, coefficients and states) as the second call alone does,
    for every equalizer whose three vectors have equal length.  Holds for any
    float arithmetic. *)
Theorem setBand_last_write_wins e index band band' :
  wf_equalizer e ->
  setBand (setBand e index band) index band' = setBand e index band'.
Proof.
  intros Hwf. pose proof (wf_setBand e index band Hwf) as Hwf1.
  assert (Hlen : ~ length (bands_ (setBand e index band)) <= index)
    by (rewrite setBand_length; lia).
  assert (Hb : bands_ (setBand (setBand e index band) index band')
               = bands_ (setBand e index band')).
  { rewrite (setBand_bands (setBand e index band)), decide_False by assumption.
    rewrite !setBand_bands. apply list_insert_insert_eq. }
  apply setBand_eq.
  - exact Hb.
  - rewrite !setBand_coeffs by assumption. now rewrite Hb.
  - rewrite (setBand_states (setBand e index band)), decide_False by assumption.
    now rewrite !setBand_states.
Qed.

Lemma configured_coeffs e :
  configured e ->
  coeffs_ e = map (fun b => calculateCoeffs b (flit 48000)) (bands_ e).
Proof.
  induction 1 as [|e index band He IH|e _ _|e data He IH].
  - reflexivity.
  - apply setBand_coeffs. now apply configured_wf.
  - reflexivity.
  - destruct (Equalizer_process_frame e data (configured_wf e He))
      as (_ & Hb & Hc & _).
    now rewrite Hb, Hc.
Qed.

(** X8. In every equalizer reached from the constructor through setBand,
    clearBands and process, the three vectors have equal length and the
    coefficients of section i are calculateCoeffs(bands_[i], 48000) for every
    stored band: coefficients are never stale.  Holds for any float
    arithmetic. *)
Theorem configured_coeffs_match e :
  configured e ->
  wf_equalizer e /\
  forall i band, getBands e !! i = Some band ->
    coeffs_ e !! i = Some (calculateCoeffs band (flit 48000)).
Proof.
  intros He. split; [now apply configured_wf|].
  intros i band Hi. rewrite (configured_coeffs e He).
  unfold getBands in Hi. now rewrite list_lookup_fmap, Hi.
Qed.
End EqualizerExtras.

(** ** Compressor *)

Section CompressorExtras.
Context `{FloatOps F}.
Implicit Types (c : Compressor F) (data xs ys : list F).

Lemma Compressor_process_app c xs ys :
  Compressor_process c (xs ++ ys) =
  let '(c1, out1) := Compressor_process c xs in
  let '(c2, out2) := Compressor_process c1 ys in
  (c2, out1 ++ out2).
Proof.
  revert c; induction xs as [|x xs IH]; intros c.
  - simpl. now destruct (Compressor_process c ys).
  - cbn [app Compressor_process].
    destruct (Compressor_step c x) as [c1 y]. rewrite IH.
    destruct (Compressor_process c1 xs) as [c2 out1].
    now destruct (Compressor_process c2 ys).
Qed.

Lemma Compressor_process_config c data :
  length (Compressor_process c data).2 = length data /\
  csettings_ (Compressor_process c data).1 = csettings_ c /\
  attackCoeff_ (Compressor_process c data).1 = attackCoeff_ c /\
  releaseCoeff_ (Compressor_process c data).1 = releaseCoeff_ c.
Proof.
  revert c; induction data as [|x data IH]; intros c; [simpl; auto|].
  cbn [Compressor_process].
  specialize (IH (Compressor_step c x).1).
  destruct (Compressor_step c x) as [c1 y] eqn:Hstep.
  assert (Hc1 : csettings_ c1 = csettings_ c /\ attackCoeff_ c1 = attackCoeff_ c
                /\ releaseCoeff_ c1 = releaseCoeff_ c).
  { unfold Compressor_step in Hstep. injection Hstep as <- _. auto. }
  simpl in IH. destruct (Compressor_process c1 data) as [c2 ys]; simpl in *.
  destruct IH as (? & ? & ? & ?), Hc1 as (? & ? & ?). repeat split; congruence.
Qed.

(** X9. Compressor::process on a block xs and then on a block ys gives the
    same output samples and the same final compressor as one call on xs
    followed by ys (the envelope carries over between calls); a call returns
    as many samples as it is given and changes neither the settings nor the
    attack and release coefficients.  Holds for any float arithmetic. *)
Theorem Compressor_blocks_continue c xs ys :
  Compressor_process c (xs ++ ys) =
    (let '(c1, out1) := Compressor_process c xs in
     let '(c2, out2) := Compressor_process c1 ys in
     (c2, out1 ++ out2)) /\
  length (Compressor_process c xs).2 = length xs /\
  csettings_ (Compressor_process c xs).1 = csettings_ c /\
  attackCoeff_ (Compressor_process c xs).1 = attackCoeff_ c /\
  releaseCoeff_ (Compressor_process c xs).1 = releaseCoeff_ c.
Proof. split; [apply Compressor_process_app|apply Compressor_process_config]. Qed.
End CompressorExtras.

(** ** Array conversion *)

Section BindingsFacts.
Context `{FloatOps F}.

Lemma read_row_take (l : list F) n N :
  n + N <= length l ->
  read_row (fun i => l !! (n + i)) N = take N (drop n l).
Proof.
  intros Hlen. unfold read_row. apply list_eq; intros i.
  rewrite list_lookup_fmap, lookup_take.
  destruct (decide (i < N)) as [Hi|Hi].
  - rewrite lookup_seq_lt by assumption. simpl. rewrite lookup_drop.
    destruct (lookup_lt_is_Some_2 l (n + i)) as [x Hx]; [lia|]. now rewrite Hx.
  - now rewrite lookup_seq_ge by lia.
Qed.

Lemma read_row_all (l : list F) : read_row (fun i => l !! i) (length l) = l.
Proof.
  pose proof (read_row_take l 0 (length l) ltac:(lia)) as Hr. simpl in Hr.
  rewrite Hr, drop_0. apply firstn_all.
Qed.

Lemma concat_rows (flat : list F) C N :
  C * N <= length flat ->
  concat (map (fun ch => read_row (fun i => flat !! (ch * N + i)) N) (seq 0 C))
  = take (C * N) flat.
Proof.
  induction C as [|C IH]; intros Hlen; [reflexivity|].
  rewrite seq_S, map_app, concat_app, IH by lia. simpl.
  rewrite app_nil_r, read_row_take by lia.
  rewrite take_take_drop. f_equal. lia.
Qed.

Lemma rows_shape (get : nat -> nat -> option F) C N :
  let rows := map (fun ch => read_row (get ch) N) (seq 0 C) in
  length rows = C /\ Forall (fun row => length row = N) rows.
Proof.
  simpl. split.
  - now rewrite length_map, length_seq.
  - apply Forall_fmap, Forall_forall. intros ch _. simpl.
    unfold read_row. now rewrite length_map, length_seq.
Qed.

Lemma concat_inj_uniform (l1 l2 : list (list F)) N :
  Forall (fun row => length row = N) l1 ->
  Forall (fun row => length row = N) l2 ->
  length l1 = length l2 -> concat l1 = concat l2 -> l1 = l2.
Proof.
  intros H1; revert l2; induction H1 as [|r1 l1 Hr1 _ IH]; intros l2 H2 Hlen Hcat.
  - destruct l2; [reflexivity|discriminate].
  - destruct l2 as [|r2 l2]; [discriminate|].
    inversion H2 as [|? ? Hr2 H2']; subst. simpl in *.
    apply app_inj_1 in Hcat as [-> Hcat]; [|congruence].
    f_equal. apply IH; auto.
Qed.

Lemma planes_reread (b : AudioBuffer F) :
  wf_buffer b ->
  map (fun ch => read_row (fun i => sample b ch i) (samples_ b)) (seq 0 (channels_ b))
  = data_ b.
Proof.
  intros [Hc Hs]. apply list_eq; intros ch.
  rewrite list_lookup_fmap.
  destruct (decide (ch < channels_ b)) as [Hch|Hch].
  - rewrite lookup_seq_lt by assumption. simpl.
    destruct (lookup_lt_is_Some_2 (data_ b) ch) as [plane Hp]; [lia|].
    rewrite Hp. f_equal. unfold sample. rewrite Hp.
    pose proof (Forall_lookup_1 _ _ _ _ Hs Hp) as Hlen. simpl in Hlen.
    rewrite <- Hlen. apply read_row_all.
  - rewrite lookup_seq_ge by lia. simpl. symmetry. apply lookup_ge_None_2. lia.
Qed.

(** X10. buffer_to_numpy followed by numpy_to_buffer gives back the same
    AudioBuffer (shape and every sample), for every buffer that holds
    channels_ planes of samples_ samples each; numpy_to_buffer does not throw
    on it.  Holds for any float arithmetic. *)
Theorem buffer_numpy_round_trip (b : AudioBuffer F) :
  wf_buffer b -> numpy_to_buffer (buffer_to_numpy b) = Some b.
Proof.
  intros Hwf. pose proof Hwf as [Hc Hs].
  unfold numpy_to_buffer, buffer_to_numpy, getNumChannels, getNumSamples. simpl.
  rewrite planes_reread by assumption.
  destruct b as [C N planes]; simpl in *. f_equal. f_equal.
  pose proof (rows_shape (fun ch i => concat planes !! (ch * N + i)) C N) as [Hl Hr].
  simpl in Hl, Hr.
  apply (concat_inj_uniform _ _ N); auto; [congruence|].
  rewrite concat_rows.
  - apply take_ge. rewrite (length_concat_planes _ _ Hs). lia.
  - rewrite (length_concat_planes _ _ Hs). lia.
Qed.

(** X11. For a two-dimensional array of shape (channels, samples) holding
    channels*samples elements in row-major order, numpy_to_buffer returns an
    AudioBuffer with that many channels and samples that satisfies the class
    invariant, and buffer_to_numpy of it gives back the same array.  Holds for
    any float arithmetic. *)
Theorem numpy_buffer_round_trip (a : ndarray F) channels samples :
  shape a = [channels; samples] ->
  wf_ndarray a ->
  exists b, numpy_to_buffer a = Some b /\ wf_buffer b /\
            getNumChannels b = channels /\ getNumSamples b = samples /\
            buffer_to_numpy b = a.
Proof.
  intros Hshape Hwf. unfold wf_ndarray in Hwf. rewrite Hshape in Hwf. simpl in Hwf.
  unfold numpy_to_buffer. rewrite Hshape. eexists. split; [reflexivity|].
  pose proof (rows_shape (fun ch i => elements a !! (ch * samples + i)) channels samples)
    as [Hl Hr]. simpl in Hl, Hr.
  assert (Hb : wf_buffer
    {| channels_ := channels; samples_ := samples;
       data_ := map (fun ch => read_row (fun i => elements a !! (ch * samples + i)) samples)
                    (seq 0 channels) |}) by (split; assumption).
  split; [exact Hb|]. split; [reflexivity|]. split; [reflexivity|].
  unfold buffer_to_numpy, getNumChannels, getNumSamples.
  rewrite planes_reread by assumption. simpl.
  rewrite concat_rows by lia. rewrite take_ge by lia.
  destruct a; simpl in *. now subst.
Qed.

End BindingsFacts.

(** ** The mix plan *)

Section AnalysisExtras.
Context `{FloatOps F}.
Implicit Types (m : AutoMixer F) (tracks : list (AudioBuffer F)).

Lemma length_calculatePanPositions tracks :
  length (calculatePanPositions tracks) = length tracks.
Proof.
  unfold calculatePanPositions, spread_positions. case_decide as Hn.
  - now rewrite Hn.
  - now rewrite length_map, length_seq.
Qed.

(** X13. AutoMixer::analyzeTracks returns one gain, one EQ band list and one
    pan position per track: trackGains, trackEQs and panPositions all have the
    length of the track list, for every mixer and every track list (the empty
    one included).  Holds for any float arithmetic. *)
Theorem plan_arrays_parallel m tracks :
  length (trackGains (analyzeTracks m tracks)) = length tracks /\
  length (trackEQs (analyzeTracks m tracks)) = length tracks /\
  length (panPositions (analyzeTracks m tracks)) = length tracks.
Proof.
  split; [apply length_trackGains|]. split; [apply length_trackEQs|].
  simpl. destruct (enableSpatialProcessing (settings_ m)).
  - apply length_calculatePanPositions.
  - apply length_replicate.
Qed.

Lemma resolve_lookup (eqs : list (list (EQBand F))) k j :
  k <= length eqs ->
  foldl (fun eqs i =>
           match eqs !! i with
           | Some bands => <[i := bands ++ [planned_band i]]> eqs
           | None => eqs
           end) eqs (seq 0 k) !! j
  = if decide (j < k) then (fun bands => bands ++ [planned_band j]) <$> eqs !! j
    else eqs !! j.
Proof.
  revert j; induction k as [|k IH]; intros j Hk.
  - simpl. reflexivity.
  - rewrite seq_S, foldl_app. simpl.
    set (acc := foldl _ eqs (seq 0 k)) in *.
    assert (Hlen : length acc = length eqs).
    { unfold acc. generalize (seq 0 k). intros idx. clear.
      revert eqs. induction idx as [|i idx IHi]; intros eqs; simpl; [reflexivity|].
      rewrite IHi. destruct (eqs !! i); [apply length_insert|reflexivity]. }
    assert (Hacc : forall j', acc !! j' =
      if decide (j' < k) then (fun bands => bands ++ [planned_band j']) <$> eqs !! j'
      else eqs !! j') by (intros j'; apply IH; lia).
    rewrite (Hacc k), decide_False by lia.
    destruct (lookup_lt_is_Some_2 eqs k) as [bands Hb]; [lia|]. rewrite Hb.
    destruct (decide (j = k)) as [->|Hne].
    + rewrite list_lookup_insert_eq, decide_True by lia. now rewrite Hb.
    + rewrite list_lookup_insert_ne, Hacc by auto.
      repeat case_decide; try reflexivity; lia.
Qed.

(** X14. The EQ plan of AutoMixer::analyzeTracks does not depend on the audio:
    with enableDynamicEQ on, track i gets exactly one band, PEAK at 1000*(i+1)
    Hz with gain 2 dB and Q 0.7; with it off, track i gets no band.  Holds for
    any float arithmetic. *)
Theorem eq_plan_one_band_per_track m tracks i :
  i < length tracks ->
  trackEQs (analyzeTracks m tracks) !! i =
  Some (if enableDynamicEQ (settings_ m) then [planned_band i] else []).
Proof.
  intros Hi. simpl. destruct (enableDynamicEQ (settings_ m)).
  - unfold resolveFrequencyConflicts.
    change (fun eqs i0 => match eqs !! i0 with
                          | Some bands => <[i0 := bands ++ [_]]> eqs
                          | None => eqs end)
      with (fun (eqs : list (list (EQBand F))) i0 => match eqs !! i0 with
                          | Some bands => <[i0 := bands ++ [planned_band i0]]> eqs
                          | None => eqs end).
    rewrite resolve_lookup by (rewrite length_replicate; lia).
    rewrite decide_True by assumption. now rewrite lookup_replicate_2.
  - now apply lookup_replicate_2.
Qed.

Lemma mix_tracks_eqs s s' bus tracks gains (eqs eqs' : list (list (EQBand F))) :
  length eqs = length eqs' ->
  mix_tracks s bus tracks gains eqs = mix_tracks s' bus tracks gains eqs'.
Proof.
  revert bus gains eqs eqs'; induction tracks as [|t tracks IH];
    intros bus [|g gains] [|e eqs] [|e' eqs'] Hlen; simpl in *;
    try reflexivity; try discriminate.
  rewrite !mix_track_unfold. apply IH. lia.
Qed.

(** X15. The buffer returned by AutoMixer::process depends on the mixer only
    through targetLUFS and maxGainReduction: two mixers that agree on these
    two settings return the same buffer for every track list, whatever their
    enableDynamicEQ, enableSpatialProcessing, frequencySeparation, bus-
    compressor settings, analyzer and compressor objects.  Holds for any float
    arithmetic. *)
Theorem render_ignores_eq_pan_compressor m m' tracks :
  targetLUFS (settings_ m') = targetLUFS (settings_ m) ->
  maxGainReduction (settings_ m') = maxGainReduction (settings_ m) ->
  process m' tracks = process m tracks.
Proof.
  intros Ht Hg. destruct tracks as [|t tracks]; [reflexivity|].
  rewrite !process_nonempty by discriminate.
  rewrite (mix_tracks_eqs (settings_ m') (settings_ m) _ _ _
             (trackEQs (analyzeTracks m' (t :: tracks)))
             (trackEQs (analyzeTracks m (t :: tracks))))
    by now rewrite !length_trackEQs.
  f_equal. now apply calculateOptimalLevels_settings.
Qed.
End AnalysisExtras.

(** ** Exact arithmetic: transparent bands *)

Section EqualizerReal.
Local Open Scope R_scope.

Lemma biquad_run_bypass c st data :
  a0 c = 1 -> a1 c = 0 -> a2 c = 0 -> b1 c = 0 -> b2 c = 0 ->
  (biquad_run c st data).2 = data.
Proof.
  intros H0 H1 H2 H3 H4. revert st; induction data as [|x data IH]; intros st;
    [reflexivity|].
  cbn [biquad_run]. unfold biquad_step at 1. cbn [fadd fsub fmul R_ops].
  rewrite H0, H1, H2, H3, H4.
  match goal with |- context [biquad_run c ?s data] =>
    specialize (IH s); destruct (biquad_run c s data) as [st2 outs] end.
  simpl in *. f_equal; [lra|exact IH].
Qed.

Lemma calculateCoeffs_bypass (band : EQBand R) sr :
  type band <> PEAK ->
  let c := calculateCoeffs band sr in
  a0 c = 1 /\ a1 c = 0 /\ a2 c = 0 /\ b1 c = 0 /\ b2 c = 0.
Proof.
  intros Hty. unfold calculateCoeffs.
  destruct (type band); try congruence; cbn; q2r; repeat split; lra.
Qed.

Lemma cascade_bypass (bands : list (EQBand R)) sts data sr :
  Forall (fun b => type b <> PEAK) bands ->
  (cascade (map (fun b => calculateCoeffs b sr) bands) sts data).2 = data.
Proof.
  intros Hall; revert sts data; induction Hall as [|b bands Hb _ IH];
    intros [|st sts] data; simpl; try reflexivity.
  destruct (calculateCoeffs_bypass b sr Hb) as (H0 & H1 & H2 & H3 & H4).
  pose proof (biquad_run_bypass _ st data H0 H1 H2 H3 H4) as Hrun.
  destruct (biquad_run (calculateCoeffs b sr) st data) as [st' out]; simpl in Hrun.
  subst out. specialize (IH sts data).
  destruct (cascade _ sts data); simpl in *. exact IH.
Qed.

(** X16. In exact real arithmetic, that is, for finite samples and finite
    section states (no NaN, no infinity): an equalizer whose bands all have
    a type other than PEAK, with the coefficients calculateCoeffs gives
    these bands at 48 kHz (those every equalizer reached through the public
    members has, X8), returns its input unchanged, whatever the frequency,
    gain and Q of the bands and whatever finite values the section states
    hold: calculateCoeffs implements only PEAK and gives every other type
    the identity section (1, 0, 0, 0, 0). *)
Theorem unimplemented_types_pass_through (e : Equalizer R) data :
  wf_equalizer e ->
  coeffs_ e = map (fun b => calculateCoeffs b (flit 48000)) (bands_ e) ->
  Forall (fun b => type b <> PEAK) (getBands e) ->
  (Equalizer_process e data).2 = data.
Proof.
  intros Hwf Hco Hall. rewrite process_as_cascade by assumption.
  rewrite Hco.
  pose proof (cascade_bypass (bands_ e) (states_ e) data (flit 48000) Hall) as Hc.
  destruct (cascade _ (states_ e) data); simpl in *. exact Hc.
Qed.

Lemma biquad_step_unit c st x :
  unit_section c -> balanced st ->
  biquad_step c st x = ({| x1 := x; x2 := x1 st; y1 := x; y2 := y1 st |}, x).
Proof.
  intros (H0 & H1 & H2) [Hx Hy]. unfold biquad_step. cbn [fadd fsub fmul R_ops].
  assert (Hout : a0 c * x + a1 c * x1 st + a2 c * x2 st - b1 c * y1 st - b2 c * y2 st
                 = x) by (rewrite H0, H1, H2, Hx, Hy; lra).
  now rewrite Hout.
Qed.

Lemma biquad_run_unit c st data :
  unit_section c -> balanced st ->
  (biquad_run c st data).2 = data /\ balanced (biquad_run c st data).1.
Proof.
  intros Hc. revert st; induction data as [|x data IH]; intros st Hst.
  - split; [reflexivity|exact Hst].
  - cbn [biquad_run]. rewrite biquad_step_unit by assumption.
    destruct (IH {| x1 := x; x2 := x1 st; y1 := x; y2 := y1 st |}) as [IHo IHs];
      [split; simpl; [reflexivity|apply Hst]|].
    destruct (biquad_run c _ data) as [st2 outs]. simpl in *.
    split; [now f_equal|exact IHs].
Qed.

Lemma Rpower10_0 : Rpower 10 0 = 1.
Proof. apply Rpower_O. lra. Qed.

Lemma calculateCoeffs_unit (band : EQBand R) :
  transparent_band band -> unit_section (calculateCoeffs band (flit 48000)).
Proof.
  intros [Hty|(Hg & _ & Ha)].
  - destruct (calculateCoeffs_bypass band (flit 48000) Hty) as (H0 & H1 & H2 & H3 & H4).
    simpl in *. unfold unit_section. rewrite H0, H1, H2, H3, H4. auto.
  - unfold calculateCoeffs, unit_section. destruct (type band); cbn; q2r;
      try (repeat split; lra).
    rewrite Hg. replace (0 / 40) with 0 by lra. rewrite Rpower10_0.
    unfold band_alpha in Ha.
    set (alpha := sin (2 * PI * frequency band / 48000) / (2 * q band)) in *.
    clearbody alpha.
    replace (alpha / 1) with alpha by lra. replace (alpha * 1) with alpha by lra.
    split; [now field|]. split; reflexivity.
Qed.

Lemma cascade_unit (bands : list (EQBand R)) sts data :
  Forall transparent_band bands -> Forall balanced sts ->
  (cascade (map (fun b => calculateCoeffs b (flit 48000)) bands) sts data).2 = data /\
  Forall balanced (cascade (map (fun b => calculateCoeffs b (flit 48000)) bands) sts data).1.
Proof.
  intros Hall; revert sts data; induction Hall as [|b bands Hb _ IH];
    intros sts data Hsts; cbn [map cascade].
  - destruct sts; auto.
  - destruct sts as [|st sts]; [auto|].
    inversion Hsts as [|? ? Hst Hsts']; subst.
    destruct (biquad_run_unit _ st data (calculateCoeffs_unit b Hb) Hst) as [Ho Hs].
    destruct (biquad_run (calculateCoeffs b (flit 48000)) st data) as [st' out].
    simpl in *. subst out. destruct (IH sts data Hsts') as [IHo IHs].
    destruct (cascade _ sts data); simpl in *. split; [exact IHo|].
    constructor; assumption.
Qed.

End EqualizerReal.

(** ** Exact arithmetic: the envelope and the gain curve *)

Section CompressorReal.
Local Open Scope R_scope.
Implicit Types (c : Compressor R) (data : list R).

Lemma time_coeff_range (ms : R) :
  0 < ms -> 0 < exp (-1 / (ms * 48000 / 1000)) < 1.
Proof.
  intros Hms. split; [apply exp_pos|].
  rewrite <- exp_0. apply exp_increasing.
  assert (0 < / (ms * 48000 / 1000)) by (apply Rinv_0_lt_compat; lra).
  unfold Rdiv at 1. lra.
Qed.

Lemma updateCoefficients_range c :
  0 < attack (csettings_ c) -> 0 < release (csettings_ c) ->
  let c' := Compressor_updateCoefficients c (flit 48000) in
  0 < attackCoeff_ c' < 1 /\ 0 < releaseCoeff_ c' < 1.
Proof.
  intros Ha Hr. cbn. q2r. split; now apply time_coeff_range.
Qed.

Lemma envelope_step c x M :
  0 <= attackCoeff_ c <= 1 -> 0 <= releaseCoeff_ c <= 1 ->
  0 <= envelope_ c <= M -> Rabs x <= M ->
  0 <= envelope_ (Compressor_step c x).1 <= M.
Proof.
  intros Ha Hr He Hx. unfold Compressor_step. cbn [fst envelope_].
  pose proof (Rabs_pos x) as Hpos. cbn [fabs fadd fsub fmul R_ops].
  destruct (fgtb (Rabs x) (envelope_ c)); split; nra.
Qed.

Lemma Compressor_step_coeffs c x :
  csettings_ (Compressor_step c x).1 = csettings_ c /\
  attackCoeff_ (Compressor_step c x).1 = attackCoeff_ c /\
  releaseCoeff_ (Compressor_step c x).1 = releaseCoeff_ c.
Proof. unfold Compressor_step. cbn. auto. Qed.

Lemma envelope_bounded c data M :
  0 <= attackCoeff_ c <= 1 -> 0 <= releaseCoeff_ c <= 1 ->
  0 <= envelope_ c <= M -> Forall (fun x => Rabs x <= M) data ->
  0 <= envelope_ (Compressor_process c data).1 <= M.
Proof.
  intros Ha Hr He Hall; revert c Ha Hr He;
    induction Hall as [|x data Hx _ IH]; intros c Ha Hr He.
  - exact He.
  - cbn [Compressor_process].
    pose proof (envelope_step c x M Ha Hr He Hx) as Hstep.
    destruct (Compressor_step_coeffs c x) as (_ & Hca & Hcr).
    destruct (Compressor_step c x) as [c1 y]; cbn [fst] in *.
    specialize (IH c1). rewrite Hca, Hcr in IH. specialize (IH Ha Hr Hstep).
    destruct (Compressor_process c1 data) as [c2 ys]. exact IH.
Qed.

(** X18. In exact real arithmetic, with attack and release times above 0 and
    coefficients computed by updateCoefficients(48000), the envelope follower
    of Compressor::process stays within bounds: if the envelope starts in [0,
    M] and every input sample has magnitude at most M, the envelope after the
    block is in [0, M]. *)
Theorem envelope_stays_below_peak c data M :
  0 < attack (csettings_ c) -> 0 < release (csettings_ c) ->
  0 <= envelope_ c <= M ->
  Forall (fun x => Rabs x <= M) data ->
  let c' := Compressor_updateCoefficients c (flit 48000) in
  0 <= envelope_ (Compressor_process c' data).1 <= M.
Proof.
  intros Ha Hr He Hall c'. subst c'.
  destruct (updateCoefficients_range c Ha Hr) as [Hca Hcr].
  apply envelope_bounded; [lra|lra|exact He|exact Hall].
Qed.

Lemma R_log10_le x y : 0 < x -> x <= y -> R_log10 x <= R_log10 y.
Proof.
  intros Hx [Hlt| ->]; [|lra]. left. now apply R_log10_lt.
Qed.

Lemma level_db_mono x y : x <= y -> level_db x <= level_db y.
Proof.
  intros Hxy. unfold level_db.
  assert (R_log10 (Rmax x (1 / 10000000000)) <= R_log10 (Rmax y (1 / 10000000000))).
  { apply R_log10_le.
    - pose proof (Rmax_r x (1 / 10000000000)). lra.
    - apply Rle_max_compat_r. exact Hxy. }
  lra.
Qed.

Lemma computeGain_level c env :
  0 <= knee (csettings_ c) -> ratio (csettings_ c) <> 0 ->
  computeGain c env =
  Rpower 10 ((- soft_knee_gr (threshold (csettings_ c)) (knee (csettings_ c))
                             (ratio (csettings_ c)) (level_db env)
              + makeupGain (csettings_ c)) / 20).
Proof. intros Hk Hr. now rewrite computeGain_curve. Qed.

(** Below the knee the gain is the make-up gain alone. *)
Lemma computeGain_below_knee c env :
  0 <= knee (csettings_ c) ->
  level_db env <= threshold (csettings_ c) - knee (csettings_ c) / 2 ->
  computeGain c env = Rpower 10 (makeupGain (csettings_ c) / 20).
Proof.
  intros Hk Hlevel. unfold computeGain. rewrite fmax_Rmax.
  replace (flit (1 # 10000000000)) with (1 / 10000000000) by (cbn; q2r; lra).
  replace (fmul (flit 20) (flog10 (Rmax env (1 / 10000000000))))
    with (level_db env) by (unfold level_db; cbn; q2r; lra).
  set (s := csettings_ c) in *.
  replace (fgtb (level_db env) (fadd (threshold s) (fdiv (knee s) (flit 2))))
    with false by (symmetry; apply fgtb_false; cbn; q2r; lra).
  replace (fgtb (level_db env) (fsub (threshold s) (fdiv (knee s) (flit 2))))
    with false by (symmetry; apply fgtb_false; cbn; q2r; lra).
  cbn. q2r. f_equal. lra.
Qed.

Lemma process_below_knee c data M :
  0 <= attackCoeff_ c <= 1 -> 0 <= releaseCoeff_ c <= 1 ->
  0 <= knee (csettings_ c) ->
  level_db M <= threshold (csettings_ c) - knee (csettings_ c) / 2 ->
  0 <= envelope_ c <= M -> Forall (fun x => Rabs x <= M) data ->
  (Compressor_process c data).2
  = map (fun x => x * Rpower 10 (makeupGain (csettings_ c) / 20)) data.
Proof.
  intros Ha Hr Hk Hlevel He Hall; revert c Ha Hr Hk Hlevel He;
    induction Hall as [|x data Hx _ IH]; intros c Ha Hr Hk Hlevel He.
  - reflexivity.
  - cbn [Compressor_process map].
    pose proof (envelope_step c x M Ha Hr He Hx) as Hstep.
    destruct (Compressor_step_coeffs c x) as (Hcs & Hca & Hcr).
    assert (Hy : (Compressor_step c x).2
                 = x * Rpower 10 (makeupGain (csettings_ c) / 20)).
    { unfold Compressor_step in *. cbn [fst snd envelope_] in *.
      cbn [fmul R_ops]. f_equal. apply computeGain_below_knee; [exact Hk|].
      eapply Rle_trans; [apply level_db_mono, Hstep|exact Hlevel]. }
    destruct (Compressor_step c x) as [c1 y]; cbn [fst snd] in *.
    specialize (IH c1). rewrite Hcs, Hca, Hcr in IH.
    specialize (IH Ha Hr Hk Hlevel Hstep).
    destruct (Compressor_process c1 data) as [c2 ys]; cbn [snd] in *.
    now rewrite Hy, IH.
Qed.

(** X19. In exact real arithmetic, with attack and release times above 0, a
    knee width of at least 0 and coefficients computed by
    updateCoefficients(48000): if the envelope starts in [0, M], every input
    sample has magnitude at most M and 20*log10(max(M, 1e-10)) is at most
    threshold - knee/2, then Compressor::process multiplies every sample by
    the makeup gain 10^(makeupGain/20) and by nothing else. *)
Theorem quiet_signal_gets_makeup_only c data M :
  0 < attack (csettings_ c) -> 0 < release (csettings_ c) ->
  0 <= knee (csettings_ c) ->
  0 <= envelope_ c <= M ->
  Forall (fun x => Rabs x <= M) data ->
  level_db M <= threshold (csettings_ c) - knee (csettings_ c) / 2 ->
  let c' := Compressor_updateCoefficients c (flit 48000) in
  (Compressor_process c' data).2
  = map (fun x => x * Rpower 10 (makeupGain (csettings_ c) / 20)) data.
Proof.
  intros Ha Hr Hk He Hall Hlevel c'. subst c'.
  destruct (updateCoefficients_range c Ha Hr) as [Hca Hcr].
  pose proof (process_below_knee (Compressor_updateCoefficients c (flit 48000)) data M)
    as Hp.
  change (csettings_ (Compressor_updateCoefficients c (flit 48000)))
    with (csettings_ c) in Hp.
  change (envelope_ (Compressor_updateCoefficients c (flit 48000)))
    with (envelope_ c) in Hp.
  apply Hp; try assumption; lra.
Qed.

(** X20. In exact real arithmetic, with ratio at least 1 and knee width at
    least 0, Compressor::computeGain never exceeds the makeup gain
    10^(makeupGain/20) for an envelope whose level 20*log10(max(env, 1e-10))
    is at or above the threshold. *)
Theorem no_boost_from_threshold_up c env :
  1 <= ratio (csettings_ c) ->
  0 <= knee (csettings_ c) ->
  threshold (csettings_ c) <= level_db env ->
  computeGain c env <= Rpower 10 (makeupGain (csettings_ c) / 20).
Proof.
  intros Hr Hk Hlevel. rewrite computeGain_level by lra.
  apply Rle_Rpower; [lra|].
  set (s := csettings_ c) in *. set (L := level_db env) in *.
  assert (Hratio : 0 <= 1 - 1 / ratio s).
  { assert (/ ratio s <= 1) by (rewrite <- Rinv_1; apply Rinv_le_contravar; lra).
    unfold Rdiv. lra. }
  assert (Hgr : 0 <= soft_knee_gr (threshold s) (knee s) (ratio s) L).
  { unfold soft_knee_gr.
    destruct (Rle_dec L (threshold s - knee s / 2)); [lra|].
    destruct (Rle_dec (threshold s + knee s / 2) L).
    - apply Rmult_le_pos; lra.
    - cbv zeta. apply Rmult_le_pos; [apply Rmult_le_pos; lra|].
      apply Rle_0_sqr. }
  lra.
Qed.

(** X21. In exact real arithmetic, with ratio above 1, Compressor::computeGain
    is strictly above the makeup gain 10^(makeupGain/20) for every envelope
    whose level 20*log10(max(env, 1e-10)) lies strictly between threshold -
    knee/2 and threshold: in the lower half of the knee the computed gain
    reduction is negative, so the signal is amplified beyond makeup. *)
Theorem lower_knee_boosts c env :
  1 < ratio (csettings_ c) ->
  threshold (csettings_ c) - knee (csettings_ c) / 2 < level_db env ->
  level_db env < threshold (csettings_ c) ->
  Rpower 10 (makeupGain (csettings_ c) / 20) < computeGain c env.
Proof.
  intros Hr Hlo Hhi. rewrite computeGain_level by lra.
  apply Rpower10_lt.
  set (s := csettings_ c) in *. set (L := level_db env) in *.
  assert (Hratio : 0 < 1 - 1 / ratio s).
  { assert (/ ratio s < 1) by (rewrite <- Rinv_1; apply Rinv_lt_contravar; lra).
    unfold Rdiv. lra. }
  assert (Hw : 0 < knee s) by lra.
  assert (Hgr : soft_knee_gr (threshold s) (knee s) (ratio s) L < 0).
  { unfold soft_knee_gr.
    destruct (Rle_dec L (threshold s - knee s / 2)); [lra|].
    destruct (Rle_dec (threshold s + knee s / 2) L); [lra|].
    cbv zeta.
    assert (Ht : 0 < (L - (threshold s - knee s / 2)) / knee s)
      by (apply Rdiv_lt_0_compat; lra).
    set (t := (L - (threshold s - knee s / 2)) / knee s) in *.
    assert (0 < t * t) by nra.
    assert ((L - threshold s) * (1 - 1 / ratio s) < 0) by nra.
    nra. }
  lra.
Qed.
End CompressorReal.

(** ** Exact arithmetic: window and bins *)

Section AnalyzerReal.
Local Open Scope R_scope.

Lemma size_sub_small n : (1 <= n)%nat -> (Z.of_nat n < 2 ^ 64)%Z ->
  size_sub n 1 = (Z.of_nat n - 1)%Z.
Proof. intros Hn Hlt. unfold size_sub. apply Z.mod_small. lia. Qed.

Lemma window_lookup M i :
  (i < M)%nat ->
  window_ (SpectrumAnalyzer_new (F:=R) M) !! i =
  Some (1 / 2 * (1 - cos (2 * PI * INR i / IZR (size_sub M 1)))).
Proof.
  intros Hi. cbn [window_ SpectrumAnalyzer_new]. unfold generateWindow.
  rewrite list_lookup_fmap, lookup_seq_lt by assumption. cbn. q2r.
  rewrite <- INR_IZR_INZ. f_equal. lra.
Qed.

(** X22. In exact real arithmetic, the window SpectrumAnalyzer's constructor
    generates for an FFT size M with 2 <= M < 2^64 has M entries, all in [0,
    1], is 0 at both ends and is symmetric: window[M-1-i] = window[i]. *)
Theorem hann_window_shape M :
  (2 <= M)%nat -> (Z.of_nat M < 2 ^ 64)%Z ->
  let w := window_ (SpectrumAnalyzer_new (F:=R) M) in
  length w = M /\
  (forall i x, w !! i = Some x -> 0 <= x <= 1) /\
  w !! 0%nat = Some 0 /\
  w !! (M - 1)%nat = Some 0 /\
  (forall i, (i < M)%nat -> w !! (M - 1 - i)%nat = w !! i).
Proof.
  intros HM Hlt w. subst w.
  assert (Hden : IZR (size_sub M 1) = INR M - 1).
  { rewrite size_sub_small by lia. rewrite minus_IZR, <- INR_IZR_INZ. reflexivity. }
  assert (HMR : 2 <= INR M) by (apply (le_INR 2); exact HM).
  split; [|split; [|split; [|split]]].
  - cbn [window_ SpectrumAnalyzer_new]. unfold generateWindow.
    now rewrite length_map, length_seq.
  - intros i x Hx.
    assert (Hi : (i < M)%nat).
    { apply lookup_lt_Some in Hx. cbn [window_ SpectrumAnalyzer_new] in Hx.
      unfold generateWindow in Hx. now rewrite length_map, length_seq in Hx. }
    rewrite window_lookup in Hx by assumption. injection Hx as <-.
    pose proof (COS_bound (2 * PI * INR i / IZR (size_sub M 1))). lra.
  - rewrite window_lookup by lia. f_equal. simpl INR.
    replace (2 * PI * 0 / IZR (size_sub M 1)) with 0 by (unfold Rdiv; lra).
    rewrite cos_0. lra.
  - rewrite window_lookup by lia. f_equal. rewrite Hden, minus_INR by lia.
    simpl (INR 1).
    replace (2 * PI * (INR M - 1) / (INR M - 1)) with (2 * PI) by (field; lra).
    rewrite cos_2PI. lra.
  - intros i Hi. rewrite !window_lookup by lia. f_equal. f_equal. f_equal.
    rewrite Hden, !minus_INR by lia. simpl (INR 1).
    replace (2 * PI * (INR M - 1 - INR i) / (INR M - 1))
      with (- (2 * PI * INR i / (INR M - 1)) + 2 * INR 1 * PI)
      by (simpl (INR 1); field; lra).
    rewrite cos_period. apply cos_neg.
Qed.

End AnalyzerReal.

(** ** Exact arithmetic: pan positions and gains *)

Section PlanReal.
Local Open Scope R_scope.
Implicit Types (m : AutoMixer R) (tracks : list (AudioBuffer R)).

Lemma spread_lookup n i :
  (i < n)%nat ->
  spread_positions (F:=R) n !! i
  = Some (- (8 / 10) + INR i * (2 * (8 / 10) / IZR (size_sub n 1))).
Proof.
  intros Hi. unfold spread_positions.
  rewrite list_lookup_fmap, lookup_seq_lt by assumption. cbn. q2r.
  rewrite <- INR_IZR_INZ. reflexivity.
Qed.

(** X23. In exact real arithmetic, for fewer than 2^64 tracks every pan
    position planned by AutoMixer::analyzeTracks lies strictly between -1
    and 1; with enableSpatialProcessing on and at least two tracks the
    first position is -0.8 and the positions never decrease from one track
    to the next. *)
Theorem pan_positions_in_range m tracks :
  (Z.of_nat (length tracks) < 2 ^ 64)%Z ->
  (forall i p, panPositions (analyzeTracks m tracks) !! i = Some p ->
     - 1 < p < 1) /\
  (enableSpatialProcessing (settings_ m) = true -> (2 <= length tracks)%nat ->
     panPositions (analyzeTracks m tracks) !! 0%nat = Some (- (8 / 10)) /\
     forall i p p', (S i < length tracks)%nat ->
       panPositions (analyzeTracks m tracks) !! i = Some p ->
       panPositions (analyzeTracks m tracks) !! S i = Some p' ->
       p <= p').
Proof.
  intros Hlt. set (n := length tracks) in *.
  assert (Hden : (2 <= n)%nat -> IZR (size_sub n 1) = INR n - 1).
  { intros Hn. rewrite size_sub_small by lia.
    rewrite minus_IZR, <- INR_IZR_INZ. reflexivity. }
  split.
  - intros i p Hp. cbn [panPositions analyzeTracks] in Hp.
    destruct (enableSpatialProcessing (settings_ m)).
    + unfold calculatePanPositions in Hp. fold n in Hp.
      destruct (decide (n = 1%nat)) as [H1|H1].
      * destruct i; [|discriminate]. injection Hp as <-. cbn. q2r. lra.
      * assert (Hi : (i < n)%nat).
        { apply lookup_lt_Some in Hp. unfold spread_positions in Hp.
          now rewrite length_map, length_seq in Hp. }
        rewrite spread_lookup in Hp by assumption. injection Hp as <-.
        assert (Hn : (2 <= n)%nat) by lia. rewrite (Hden Hn).
        assert (HnR : 2 <= INR n) by (apply (le_INR 2); exact Hn).
        assert (HiR : INR i <= INR n - 1).
        { replace (INR n - 1) with (INR (n - 1)) by (rewrite minus_INR by lia; simpl; lra).
          apply le_INR. lia. }
        pose proof (pos_INR i) as Hi0.
        assert (Hq : 0 <= INR i / (INR n - 1) <= 1).
        { split.
          - apply Rmult_le_pos; [lra|]. left. apply Rinv_0_lt_compat. lra.
          - apply (Rmult_le_reg_r (INR n - 1)); [lra|].
            replace (INR i / (INR n - 1) * (INR n - 1)) with (INR i) by (field; lra).
            lra. }
        replace (INR i * (2 * (8 / 10) / (INR n - 1)))
          with (16 / 10 * (INR i / (INR n - 1))) by (field; lra).
        lra.
    + apply lookup_replicate_1 in Hp as [-> _]. cbn. q2r. lra.
  - intros Hflag Hn. cbn [panPositions analyzeTracks]. rewrite Hflag.
    unfold calculatePanPositions. fold n. rewrite decide_False by lia.
    assert (HnR : 2 <= INR n) by (apply (le_INR 2); exact Hn).
    split.
    + rewrite spread_lookup by lia. f_equal. simpl INR. lra.
    + intros i p p' Hi Hp Hp'.
      rewrite spread_lookup in Hp, Hp' by lia.
      injection Hp as <-. injection Hp' as <-.
      rewrite (Hden Hn).
      change (match i with 0%nat => 1 | S _ => INR i + 1 end) with (INR (S i)).
      rewrite S_INR.
      assert (Hstep : 0 < 2 * (8 / 10) / (INR n - 1))
        by (apply Rdiv_lt_0_compat; lra).
      set (step := 2 * (8 / 10) / (INR n - 1)) in *. clearbody step.
      pose proof (pos_INR i). nra.
Qed.

(** X24. In exact real arithmetic, the gain AutoMixer::analyzeTracks plans
    for a track with at least one channel and one sample is at least
    10^(-maxGainReduction/20): such a track is never attenuated by more
    than maxGainReduction dB, however loud it is. *)
Theorem planned_gain_never_below_limit m tracks i track g :
  tracks !! i = Some track ->
  wf_buffer track ->
  (getNumChannels track * getNumSamples track <> 0)%nat ->
  trackGains (analyzeTracks m tracks) !! i = Some g ->
  Rpower 10 (- maxGainReduction (settings_ m) / 20) <= g.
Proof.
  intros Hi _ _ Hg. cbn [trackGains analyzeTracks] in Hg.
  unfold calculateOptimalLevels in Hg.
  rewrite !list_lookup_fmap, Hi in Hg.
  cbn [fmap option_fmap option_map] in Hg.
  assert (Hgl : g = level_gain (settings_ m) (measureLUFS track)) by congruence.
  rewrite Hgl, level_gain_R. unfold clamped_gain.
  apply Rle_Rpower; [lra|].
  pose proof (Rmax_r (targetLUFS (settings_ m) - measureLUFS track)
                     (- maxGainReduction (settings_ m))).
  lra.
Qed.
End PlanReal.

(** ** Exact arithmetic: loudness and render *)

Section LoudnessReal.
Local Open Scope R_scope.
Implicit Types (m : AutoMixer R) (tracks : list (AudioBuffer R)) (b : AudioBuffer R).

Lemma R_log10_floor : R_log10 (1 / 10000000000) = -10.
Proof.
  replace (1 / 10000000000) with (/ 10 ^ 10) by (simpl; lra).
  unfold R_log10. rewrite ln_Rinv by (apply pow_lt; lra).
  rewrite ln_pow by lra. pose proof ln10_pos. simpl INR. field. lra.
Qed.

Lemma squares_nonneg (xs : list R) : 0 <= fold_right Rplus 0 (map (fun x => x * x) xs).
Proof. induction xs as [|x xs IH]; simpl; [lra|]. nra. Qed.

Lemma squares_silent (xss : list (list R)) :
  Forall (Forall (fun x => x = 0)) xss ->
  fold_right Rplus 0 (map (fun x => x * x) (concat xss)) = 0.
Proof.
  induction 1 as [|xs xss Hxs _ IH]; simpl; [reflexivity|].
  rewrite map_app, fold_right_app, IH.
  induction Hxs as [|x xs -> _ IHx]; simpl; [reflexivity|]. rewrite IHx. lra.
Qed.

Lemma mean_square_nonneg b : 0 <= mean_square b.
Proof.
  unfold mean_square. pose proof (squares_nonneg (concat (data_ b))).
  pose proof (pos_INR (channels_ b * samples_ b)) as Hn.
  destruct Hn as [Hpos|Hz].
  - apply Rmult_le_pos; [assumption|]. left. now apply Rinv_0_lt_compat.
  - rewrite <- Hz. unfold Rdiv. rewrite Rinv_0. lra.
Qed.

(** X25. In exact real arithmetic, AutoMixer::measureLUFS of a buffer that
    holds channels_ planes of samples_ samples each, with at least one channel
    and one sample, is never below -100.691, and it is exactly -100.691 when
    all its samples are 0. *)
Theorem loudness_floor b :
  wf_buffer b ->
  (getNumChannels b * getNumSamples b <> 0)%nat ->
  - (100691 / 1000) <= measureLUFS b /\
  (silent b -> measureLUFS b = - (100691 / 1000)).
Proof.
  intros Hwf Hne. rewrite measureLUFS_offset by assumption. unfold lufs_offset.
  pose proof R_log10_floor as Hfloor. split.
  - pose proof (mean_square_nonneg b) as Hms.
    pose proof (R_log10_le (1 / 10000000000) (mean_square b + 1 / 10000000000)
                  ltac:(lra) ltac:(lra)) as Hle.
    lra.
  - intros Hs. unfold mean_square. rewrite (squares_silent _ Hs).
    replace (0 / INR (channels_ b * samples_ b) + 1 / 10000000000)
      with (1 / 10000000000) by (unfold Rdiv; lra).
    lra.
Qed.

Lemma sample_silent b ch n x : silent b -> sample b ch n = Some x -> x = 0.
Proof.
  unfold silent, sample. intros Hs Hx.
  destruct (data_ b !! ch) as [plane|] eqn:Hp; [|discriminate].
  pose proof (Forall_lookup_1 _ _ _ _ Hs Hp) as Hplane.
  exact (Forall_lookup_1 _ _ _ _ Hplane Hx).
Qed.

Lemma bus_sum_silent tracks gains ch n :
  Forall silent tracks -> bus_sum (F:=R) 0 tracks gains ch n = 0.
Proof.
  intros Hall; revert gains; induction Hall as [|t tracks Ht _ IH];
    intros [|g gains]; simpl; try reflexivity.
  unfold contribution. destruct (sample t ch n) as [x|] eqn:Hx.
  - rewrite (sample_silent t ch n x Ht Hx).
    assert (Hz : 0 + fmul (fmul 0 g) (flit 1) = 0).
    { clear. cbn [fmul flit R_ops]. unfold Q2R; simpl. lra. }
    rewrite Hz. apply IH.
  - apply IH.
Qed.

(** X26. In exact real arithmetic, for a mixer with targetLUFS at most 0
    and maxGainReduction at least 0 (the gain planned for a silent track is
    then at most 10^(100.691/20), so no planned gain is infinite):
    AutoMixer::process of tracks whose samples are all 0 returns 0 at every
    sample of both output planes, for tracks of any shapes (ragged lengths
    and empty tracks included), each holding channels_ planes of samples_
    samples. *)
Theorem silence_in_silence_out m tracks ch n :
  targetLUFS (settings_ m) <= 0 -> 0 <= maxGainReduction (settings_ m) ->
  Forall wf_buffer tracks -> Forall silent tracks ->
  (ch < 2)%nat -> (n < maxSamples tracks)%nat ->
  sample (process m tracks) ch n = Some 0.
Proof.
  intros _ _ Hwf Hs Hch Hn. rewrite sample_process by assumption.
  replace (flit 0) with 0 by (cbn; q2r; lra).
  now rewrite bus_sum_silent.
Qed.

(** X27. In exact real arithmetic, AutoMixer::process of a single track
    (holding channels_ planes of samples_ samples each) returns, at every
    sample position the track has in its first two planes, that sample
    multiplied by the track's planned gain 10^(max(targetLUFS -
    measureLUFS(track), -maxGainReduction)/20): one track is scaled and
    otherwise passed through. *)
Theorem single_track_is_scaled m track ch n x :
  wf_buffer track ->
  (ch < 2)%nat ->
  sample track ch n = Some x ->
  sample (process m [track]) ch n
  = Some (x * level_gain (settings_ m) (measureLUFS track)).
Proof.
  intros Hwf Hch Hx.
  destruct (sample_Some_bounds _ _ _ _ Hwf Hx) as [_ Hn].
  rewrite sample_process; [|constructor; [assumption|constructor]|assumption|].
  - cbn [bus_sum trackGains analyzeTracks calculateOptimalLevels map].
    unfold contribution. rewrite Hx. f_equal. cbn. q2r. lra.
  - unfold maxSamples, getNumSamples. simpl. lia.
Qed.
End LoudnessReal.

(** ** Instances of the further properties *)

Section ExtraInstances.
Local Open Scope R_scope.

(** A two-sample mono buffer and a shorter one. *)
Lemma buffer_operations_keep_shape_witness :
  let b := mono_track [1; 2] in
  let other := mono_track [3] in
  wf_buffer b /\
  ((wf_buffer (applyGain b 2) /\ wf_buffer (clear b) /\ wf_buffer (addFrom b other 2)) /\
   (getNumChannels (applyGain b 2) = getNumChannels b /\
    getNumChannels (clear b) = getNumChannels b /\
    getNumChannels (addFrom b other 2) = getNumChannels b) /\
   (getNumSamples (applyGain b 2) = getNumSamples b /\
    getNumSamples (clear b) = getNumSamples b /\
    getNumSamples (addFrom b other 2) = getNumSamples b)).
Proof.
  intros b other.
  assert (Hwf : wf_buffer b) by apply wf_mono_track.
  split; [exact Hwf|].
  exact (buffer_operations_keep_shape b other 2 Hwf).
Defined.

Lemma clear_gives_fresh_buffer_witness :
  let b := mono_track [1; 2] in
  wf_buffer b /\ clear b = AudioBuffer_new (getNumChannels b) (getNumSamples b).
Proof.
  intros b.
  assert (Hwf : wf_buffer b) by apply wf_mono_track.
  split; [exact Hwf|].
  exact (clear_gives_fresh_buffer b Hwf).
Defined.

(** The second sample of a two-sample buffer, past the end of the source. *)
Lemma addFrom_touches_overlap_only_witness :
  let self := mono_track [1; 2] in
  let other := mono_track [3] in
  (Nat.min (getNumChannels self) (getNumChannels other) <= 0 \/
   Nat.min (getNumSamples self) (getNumSamples other) <= 1)%nat /\
  sample (addFrom self other 2) 0 1 = sample self 0 1.
Proof.
  intros self other.
  assert (Hout : (Nat.min (getNumChannels self) (getNumChannels other) <= 0 \/
                  Nat.min (getNumSamples self) (getNumSamples other) <= 1)%nat)
    by (right; simpl; lia).
  split; [exact Hout|].
  exact (addFrom_touches_overlap_only self other 2 0%nat 1%nat Hout).
Defined.

(** A source with one plane and no samples. *)
Lemma addFrom_empty_source_witness :
  let self := mono_track [1; 2] in
  let other := AudioBuffer_new (F:=R) 1 0 in
  (getNumChannels other = 0%nat \/ getNumSamples other = 0%nat) /\
  addFrom self other 2 = self.
Proof.
  intros self other.
  assert (Hempty : getNumChannels other = 0%nat \/ getNumSamples other = 0%nat)
    by (right; reflexivity).
  split; [exact Hempty|].
  exact (addFrom_empty_source self other 2 Hempty).
Defined.

(** One default band, two samples. *)
Lemma Equalizer_process_keeps_length_witness :
  let e := setBand (F:=R) Equalizer_new 0 EQBand_default in
  wf_equalizer e /\
  (length (Equalizer_process e [1; 2]).2 = length [1; 2] /\
   getBands (Equalizer_process e [1; 2]).1 = getBands e /\
   coeffs_ (Equalizer_process e [1; 2]).1 = coeffs_ e /\
   length (states_ (Equalizer_process e [1; 2]).1) = length (states_ e)).
Proof.
  intros e.
  assert (Hwf : wf_equalizer e) by apply wf_setBand, wf_Equalizer_new.
  split; [exact Hwf|].
  exact (Equalizer_process_keeps_length e [1; 2] Hwf).
Defined.

Lemma setBand_last_write_wins_witness :
  let e := Equalizer_new (F:=R) in
  let band := {| frequency := 100; gain := 6; q := 1; type := HIGH_PASS |} in
  wf_equalizer e /\
  setBand (setBand e 1 EQBand_default) 1 band = setBand e 1 band.
Proof.
  intros e band.
  assert (Hwf : wf_equalizer e) by apply wf_Equalizer_new.
  split; [exact Hwf|].
  exact (setBand_last_write_wins e 1%nat EQBand_default band Hwf).
Defined.

Lemma configured_coeffs_match_witness :
  let e := setBand (F:=R) Equalizer_new 1 EQBand_default in
  configured e /\
  (wf_equalizer e /\
   forall i band, getBands e !! i = Some band ->
     coeffs_ e !! i = Some (calculateCoeffs band (flit 48000))).
Proof.
  intros e.
  assert (He : configured e) by (apply configured_setBand, configured_new).
  split; [exact He|].
  exact (configured_coeffs_match e He).
Defined.

(** A 2x2 array. *)
Lemma numpy_buffer_round_trip_witness :
  let a := {| shape := [2; 2]%nat; elements := [1; 2; 3; 4] |} in
  (shape a = [2; 2]%nat /\ wf_ndarray a) /\
  exists b, numpy_to_buffer a = Some b /\ wf_buffer b /\
            getNumChannels b = 2%nat /\ getNumSamples b = 2%nat /\
            buffer_to_numpy b = a.
Proof.
  intros a.
  assert (Hs : shape a = [2; 2]%nat) by reflexivity.
  assert (Hwf : wf_ndarray a) by reflexivity.
  split; [auto|].
  exact (numpy_buffer_round_trip a 2%nat 2%nat Hs Hwf).
Defined.

Lemma buffer_numpy_round_trip_witness :
  let b := mono_track [1; 2] in
  wf_buffer b /\ numpy_to_buffer (buffer_to_numpy b) = Some b.
Proof.
  intros b.
  assert (Hwf : wf_buffer b) by apply wf_mono_track.
  split; [exact Hwf|].
  exact (buffer_numpy_round_trip b Hwf).
Defined.

(** The second of two tracks, dynamic EQ on. *)
Lemma eq_plan_one_band_per_track_witness :
  let tracks := [mono_track [1]; mono_track [2]] in
  (1 < length tracks)%nat /\
  trackEQs (analyzeTracks default_mixer tracks) !! 1%nat =
  Some (if enableDynamicEQ (settings_ default_mixer) then [planned_band 1] else []).
Proof.
  intros tracks.
  assert (Hi : (1 < length tracks)%nat) by (simpl; lia).
  split; [exact Hi|].
  exact (eq_plan_one_band_per_track default_mixer tracks 1%nat Hi).
Defined.

(** The default mixer against one with spatial processing off and another
    bus compressor. *)
Lemma render_ignores_eq_pan_compressor_witness :
  let m' := with_bus_compressor (with_spatial default_mixer false) 0 8 None in
  let tracks := [mono_track [1; 2]; mono_track [3]] in
  (targetLUFS (settings_ m') = targetLUFS (settings_ default_mixer) /\
   maxGainReduction (settings_ m') = maxGainReduction (settings_ default_mixer)) /\
  process m' tracks = process default_mixer tracks.
Proof.
  intros m' tracks.
  assert (Ht : targetLUFS (settings_ m') = targetLUFS (settings_ default_mixer))
    by reflexivity.
  assert (Hg : maxGainReduction (settings_ m') = maxGainReduction (settings_ default_mixer))
    by reflexivity.
  split; [auto|].
  exact (render_ignores_eq_pan_compressor default_mixer m' tracks Ht Hg).
Defined.

(** One band of an unimplemented type, on a section that holds the history
    of an earlier sample. *)
Lemma unimplemented_types_pass_through_witness :
  let band := {| frequency := 100; gain := 6; q := 1; type := HIGH_PASS |} in
  let e := (Equalizer_process (setBand (F:=R) Equalizer_new 0 band) [3]).1 in
  (wf_equalizer e /\
   coeffs_ e = map (fun b => calculateCoeffs b (flit 48000)) (bands_ e) /\
   Forall (fun b => type b <> PEAK) (getBands e)) /\
  (Equalizer_process e [1; 2]).2 = [1; 2].
Proof.
  intros band e.
  assert (Hwf : wf_equalizer e) by (split; reflexivity).
  assert (Hco : coeffs_ e = map (fun b => calculateCoeffs b (flit 48000)) (bands_ e))
    by reflexivity.
  assert (Hb : Forall (fun b => type b <> PEAK) (getBands e))
    by (repeat constructor; discriminate).
  split; [auto|].
  exact (unimplemented_types_pass_through e [1; 2] Hwf Hco Hb).
Defined.


Lemma level_db_tenth : level_db (1 / 10) = -20.
Proof.
  unfold level_db. rewrite Rmax_left by lra.
  replace (1 / 10) with (/ 10) by lra. rewrite R_log10_tenth. lra.
Qed.

Lemma level_db_1 : level_db 1 = 0.
Proof. unfold level_db. rewrite Rmax_left by lra. rewrite R_log10_1. lra. Qed.

(** The default compressor on two samples of magnitude at most 1. *)
Lemma envelope_stays_below_peak_witness :
  let c := Compressor_new (F:=R) CompressorSettings_default in
  let data := [1 / 2; - (1 / 4)] in
  (0 < attack (csettings_ c) /\ 0 < release (csettings_ c) /\
   0 <= envelope_ c <= 1 /\ Forall (fun x => Rabs x <= 1) data) /\
  0 <= envelope_ (Compressor_process (Compressor_updateCoefficients c (flit 48000)) data).1 <= 1.
Proof.
  intros c data.
  assert (Ha : 0 < attack (csettings_ c)) by (cbn; q2r; lra).
  assert (Hr : 0 < release (csettings_ c)) by (cbn; q2r; lra).
  assert (He : 0 <= envelope_ c <= 1) by (cbn; q2r; lra).
  assert (Hd : Forall (fun x => Rabs x <= 1) data)
    by (repeat (constructor; [apply Rabs_le; lra|]); constructor).
  split; [auto|].
  exact (envelope_stays_below_peak c data 1 Ha Hr He Hd).
Defined.

(** The default compressor (threshold -12 dB, knee 2 dB) on samples of
    magnitude at most 0.1, that is -20 dB. *)
Lemma quiet_signal_gets_makeup_only_witness :
  let c := Compressor_new (F:=R) CompressorSettings_default in
  let data := [1 / 10; - (1 / 20)] in
  (0 < attack (csettings_ c) /\ 0 < release (csettings_ c) /\
   0 <= knee (csettings_ c) /\ 0 <= envelope_ c <= 1 / 10 /\
   Forall (fun x => Rabs x <= 1 / 10) data /\
   level_db (1 / 10) <= threshold (csettings_ c) - knee (csettings_ c) / 2) /\
  (Compressor_process (Compressor_updateCoefficients c (flit 48000)) data).2
  = map (fun x => x * Rpower 10 (makeupGain (csettings_ c) / 20)) data.
Proof.
  intros c data.
  assert (Ha : 0 < attack (csettings_ c)) by (cbn; q2r; lra).
  assert (Hr : 0 < release (csettings_ c)) by (cbn; q2r; lra).
  assert (Hk : 0 <= knee (csettings_ c)) by (cbn; q2r; lra).
  assert (He : 0 <= envelope_ c <= 1 / 10) by (cbn; q2r; lra).
  assert (Hd : Forall (fun x => Rabs x <= 1 / 10) data)
    by (repeat (constructor; [apply Rabs_le; lra|]); constructor).
  assert (Hl : level_db (1 / 10) <= threshold (csettings_ c) - knee (csettings_ c) / 2)
    by (rewrite level_db_tenth; cbn; q2r; lra).
  split; [auto 10|].
  exact (quiet_signal_gets_makeup_only c data (1 / 10) Ha Hr Hk He Hd Hl).
Defined.

(** The default compressor at an envelope of 1, that is 0 dB. *)
Lemma no_boost_from_threshold_up_witness :
  let c := Compressor_new (F:=R) CompressorSettings_default in
  (1 <= ratio (csettings_ c) /\ 0 <= knee (csettings_ c) /\
   threshold (csettings_ c) <= level_db 1) /\
  computeGain c 1 <= Rpower 10 (makeupGain (csettings_ c) / 20).
Proof.
  intros c.
  assert (Hr : 1 <= ratio (csettings_ c)) by (cbn; q2r; lra).
  assert (Hk : 0 <= knee (csettings_ c)) by (cbn; q2r; lra).
  assert (Ht : threshold (csettings_ c) <= level_db 1)
    by (rewrite level_db_1; cbn; q2r; lra).
  split; [auto|].
  exact (no_boost_from_threshold_up c 1 Hr Hk Ht).
Defined.

(** Threshold -19.5 dB, knee 2 dB, ratio 4, at an envelope of 0.1, that is
    -20 dB. *)
Lemma lower_knee_boosts_witness :
  let c := Compressor_new (F:=R)
             {| threshold := - (39 / 2); ratio := 4; attack := 10;
                release := 100; knee := 2; makeupGain := 0 |} in
  (1 < ratio (csettings_ c) /\
   threshold (csettings_ c) - knee (csettings_ c) / 2 < level_db (1 / 10) /\
   level_db (1 / 10) < threshold (csettings_ c)) /\
  Rpower 10 (makeupGain (csettings_ c) / 20) < computeGain c (1 / 10).
Proof.
  intros c.
  assert (Hr : 1 < ratio (csettings_ c)) by (cbn; lra).
  assert (Hlo : threshold (csettings_ c) - knee (csettings_ c) / 2 < level_db (1 / 10))
    by (rewrite level_db_tenth; cbn; lra).
  assert (Hhi : level_db (1 / 10) < threshold (csettings_ c))
    by (rewrite level_db_tenth; cbn; lra).
  split; [auto|].
  exact (lower_knee_boosts c (1 / 10) Hr Hlo Hhi).
Defined.

(** A window of four points. *)
Lemma hann_window_shape_witness :
  ((2 <= 4)%nat /\ (Z.of_nat 4 < 2 ^ 64)%Z) /\
  (let w := window_ (SpectrumAnalyzer_new (F:=R) 4) in
   length w = 4%nat /\
   (forall i x, w !! i = Some x -> 0 <= x <= 1) /\
   w !! 0%nat = Some 0 /\
   w !! (4 - 1)%nat = Some 0 /\
   (forall i, (i < 4)%nat -> w !! (4 - 1 - i)%nat = w !! i)).
Proof.
  assert (H2 : (2 <= 4)%nat) by lia.
  assert (Hlt : (Z.of_nat 4 < 2 ^ 64)%Z) by (vm_compute; reflexivity).
  split; [auto|].
  exact (hann_window_shape 4 H2 Hlt).
Defined.

(** Three tracks: positions -0.8, 0, 0.8. *)
Lemma pan_positions_in_range_witness :
  let tracks := [mono_track [1]; mono_track [2]; mono_track [3]] in
  (Z.of_nat (length tracks) < 2 ^ 64)%Z /\
  ((forall i p, panPositions (analyzeTracks default_mixer tracks) !! i = Some p ->
      - 1 < p < 1) /\
   (enableSpatialProcessing (settings_ default_mixer) = true -> (2 <= length tracks)%nat ->
      panPositions (analyzeTracks default_mixer tracks) !! 0%nat = Some (- (8 / 10)) /\
      forall i p p', (S i < length tracks)%nat ->
        panPositions (analyzeTracks default_mixer tracks) !! i = Some p ->
        panPositions (analyzeTracks default_mixer tracks) !! S i = Some p' ->
        p <= p')).
Proof.
  intros tracks.
  assert (Hlt : (Z.of_nat (length tracks) < 2 ^ 64)%Z) by (vm_compute; reflexivity).
  split; [exact Hlt|].
  exact (pan_positions_in_range default_mixer tracks Hlt).
Defined.

(** The gain planned for a single unit sample. *)
Lemma planned_gain_never_below_limit_witness :
  let track := mono_track [1] in
  let g := level_gain (settings_ default_mixer) (measureLUFS track) in
  ([track] !! 0%nat = Some track /\ wf_buffer track /\
   (getNumChannels track * getNumSamples track <> 0)%nat /\
   trackGains (analyzeTracks default_mixer [track]) !! 0%nat = Some g) /\
  Rpower 10 (- maxGainReduction (settings_ default_mixer) / 20) <= g.
Proof.
  intros track g.
  assert (Hi : [track] !! 0%nat = Some track) by reflexivity.
  assert (Hwf : wf_buffer track) by apply wf_mono_track.
  assert (Hne : (getNumChannels track * getNumSamples track <> 0)%nat)
    by (simpl; lia).
  assert (Hg : trackGains (analyzeTracks default_mixer [track]) !! 0%nat = Some g)
    by reflexivity.
  split; [auto|].
  exact (planned_gain_never_below_limit default_mixer [track] 0%nat track g
           Hi Hwf Hne Hg).
Defined.

(** One silent sample. *)
Lemma loudness_floor_witness :
  let b := mono_track [0] in
  (wf_buffer b /\ (getNumChannels b * getNumSamples b <> 0)%nat) /\
  (- (100691 / 1000) <= measureLUFS b /\
   (silent b -> measureLUFS b = - (100691 / 1000))).
Proof.
  intros b.
  assert (Hwf : wf_buffer b) by apply wf_mono_track.
  assert (Hne : (getNumChannels b * getNumSamples b <> 0)%nat) by (simpl; lia).
  split; [auto|].
  exact (loudness_floor b Hwf Hne).
Defined.

(** Two silent tracks of different lengths, default settings (target
    -16 LUFS, at most 12 dB of reduction). *)
Lemma silence_in_silence_out_witness :
  let tracks := [mono_track [0; 0]; mono_track [0]] in
  (targetLUFS (settings_ default_mixer) <= 0 /\
   0 <= maxGainReduction (settings_ default_mixer) /\
   Forall wf_buffer tracks /\ Forall silent tracks /\
   (0 < 2)%nat /\ (1 < maxSamples tracks)%nat) /\
  sample (process default_mixer tracks) 0 1 = Some 0.
Proof.
  intros tracks.
  assert (Ht : targetLUFS (settings_ default_mixer) <= 0) by (cbn; q2r; lra).
  assert (Hm : 0 <= maxGainReduction (settings_ default_mixer)) by (cbn; q2r; lra).
  assert (Hwf : Forall wf_buffer tracks)
    by (repeat constructor; apply wf_mono_track).
  assert (Hs : Forall silent tracks) by (repeat constructor).
  assert (Hch : (0 < 2)%nat) by lia.
  assert (Hn : (1 < maxSamples tracks)%nat) by (unfold maxSamples; simpl; lia).
  split; [auto 10|].
  exact (silence_in_silence_out default_mixer tracks 0%nat 1%nat Ht Hm Hwf Hs Hch Hn).
Defined.

(** The second sample of a two-sample mono track. *)
Lemma single_track_is_scaled_witness :
  let track := mono_track [1; 2] in
  (wf_buffer track /\ (0 < 2)%nat /\ sample track 0 1 = Some 2) /\
  sample (process default_mixer [track]) 0 1
  = Some (2 * level_gain (settings_ default_mixer) (measureLUFS track)).
Proof.
  intros track.
  assert (Hwf : wf_buffer track) by apply wf_mono_track.
  assert (Hch : (0 < 2)%nat) by lia.
  assert (Hx : sample track 0 1 = Some 2) by reflexivity.
  split; [auto|].
  exact (single_track_is_scaled default_mixer track 0%nat 1%nat 2 Hwf Hch Hx).
Defined.
End ExtraInstances.
